(** * piano_store: frequency calculator, step sequencer, recorder and store

    A shallow embedding of the parts of the piano_store sources that the
    specification talks about:

    - [client/src/lib/piano.ts] and the private copies of
      [getNoteFrequency] in [PianoSoundboard.tsx] and
      [SoundPackEditor.tsx] (module [Frequency]);
    - the [SequencerGrid] component: [startSequencer], [stopSequencer],
      [playStep], [scheduleNotes], [playNote], [stopAllNotes]
      (module [Sequencer]);
    - [RecordingControls.tsx]: [startRecording], [addNoteToRecording],
      [stopRecording] and the effects that follow them (module
      [Recorder]);
    - [MemStorage] and the routes of [server/routes.ts] that change it,
      with the validation of their bodies (module [Storage]).

    Numbers.  JavaScript numbers are IEEE doubles.  The frequency
    calculator needs [Math.pow], which the language leaves to the
    engine, and is modelled over the mathematical reals ([Rpower]):
    what is proved of it holds up to the rounding of doubles, and for
    octaves far from the keyboard the doubles underflow or overflow
    where the reals do not.  The state machine of the sequencer is
    modelled over exact rationals [Q] so that whole runs can be
    evaluated; module [Doubles] has the scheduler's window test on
    doubles themselves.  Identifiers, counters and millisecond
    timestamps are integers [Z]; where the store adds to a number a
    client can set, the addition is that of doubles
    ([Storage.js_add]). *)

From Stdlib Require Import Floats.
From Stdlib Require Import ZArith QArith Qround Reals Psatz List Bool
  DecimalString.
From stdpp Require Import gmap strings.

Local Open Scope Z_scope.

(* ===================================================================== *)
(** * Frequency calculator *)
(* ===================================================================== *)

Module Frequency.

(** [NOTE_NAMES] of lib/piano.ts (the same literal is repeated as
    [noteNames] in PianoSoundboard.tsx and as [notes] in
    SoundPackEditor.tsx). *)
Definition NOTE_NAMES : list string :=
  ["C"; "C#"; "D"; "D#"; "E"; "F"; "F#"; "G"; "G#"; "A"; "A#"; "B"]%string.

(** [Array.prototype.indexOf]: position of the first element equal to
    [x], or [-1]. *)
Fixpoint indexOf_from (l : list string) (x : string) (i : Z) : Z :=
  match l with
  | [] => -1
  | y :: l' => if String.eqb y x then i else indexOf_from l' x (i + 1)
  end.

Definition indexOf (l : list string) (x : string) : Z := indexOf_from l x 0.

(** [Math.pow(b, x)] for a positive base, over the reals: no rounding,
    and neither the underflow to [0] nor the overflow to [Infinity] of
    doubles. *)
Definition Math_pow (b x : R) : R := Rpower b x.

Definition a4Index : Z := 9.
Definition a4Octave : Z := 4.
Definition a4Frequency : R := 440%R.

(** [semitones / 12] of the source, the argument of [Math.pow]. *)
Definition semitones (octave noteIndex : Z) : Z :=
  (octave - a4Octave) * 12 + (noteIndex - a4Index).

(** lib/piano.ts, [getNoteFrequency]: an unknown name yields [0]. *)
Definition getNoteFrequency (note : string) (octave : Z) : R :=
  let noteIndex := indexOf NOTE_NAMES note in
  if noteIndex =? -1 then 0%R
  else (a4Frequency * Math_pow 2 (IZR (semitones octave noteIndex) / 12))%R.

(** PianoSoundboard.tsx, [getNoteFrequency]: an unknown name yields
    [440] ("Default to A4 if note not found"). *)
Definition getNoteFrequency_soundboard (note : string) (octave : Z) : R :=
  let noteIndex := indexOf NOTE_NAMES note in
  if noteIndex =? -1 then 440%R
  else (a4Frequency * Math_pow 2 (IZR (semitones octave noteIndex) / 12))%R.

(** SoundPackEditor.tsx, [getNoteFrequency]: as the soundboard copy
    ("Default to A4 frequency"). *)
Definition getNoteFrequency_editor (note : string) (octave : Z) : R :=
  let noteIndex := indexOf NOTE_NAMES note in
  if noteIndex =? -1 then 440%R
  else (440 * Math_pow 2 (IZR ((octave - 4) * 12 + (noteIndex - 9)) / 12))%R.

(** A name is chromatic when it is one of the twelve entries. *)
Definition chromatic (note : string) : Prop := In note NOTE_NAMES.

(** ** Facts about [indexOf] *)

Lemma indexOf_from_range l x i :
  indexOf_from l x i = -1 \/
  (i <= indexOf_from l x i < i + Z.of_nat (length l)).
Proof.
  revert i. induction l as [|y l IH]; intros i; simpl; [now left|].
  destruct (String.eqb y x).
  - right. lia.
  - destruct (IH (i + 1)) as [->|H]; [now left|right; lia].
Qed.

Lemma indexOf_from_absent l x i :
  0 <= i -> ~ In x l -> indexOf_from l x i = -1.
Proof.
  revert i. induction l as [|y l IH]; intros i Hi Hn; simpl; [reflexivity|].
  destruct (String.eqb_spec y x) as [->|Hne].
  - exfalso. apply Hn. now left.
  - apply IH; [lia|]. intros Hin. apply Hn. now right.
Qed.

Lemma indexOf_from_present l x i :
  0 <= i -> In x l -> indexOf_from l x i <> -1.
Proof.
  revert i. induction l as [|y l IH]; intros i Hi Hin; simpl; [destruct Hin|].
  destruct (String.eqb_spec y x) as [->|Hne]; [lia|].
  apply IH; [lia|]. destruct Hin as [->|Hin]; [congruence|exact Hin].
Qed.

Lemma indexOf_absent x : ~ chromatic x -> indexOf NOTE_NAMES x = -1.
Proof. intros H. apply indexOf_from_absent; [lia|exact H]. Qed.

Lemma indexOf_present x : chromatic x -> indexOf NOTE_NAMES x <> -1.
Proof. intros H. apply indexOf_from_present; [lia|exact H]. Qed.

(** The twelve names are pairwise different, so [indexOf] returns the
    position at which a name is listed. *)
Lemma indexOf_nth (i : nat) (note : string) :
  nth_error NOTE_NAMES i = Some note ->
  indexOf NOTE_NAMES note = Z.of_nat i.
Proof.
  intros H.
  do 12 (destruct i as [|i]; [injection H as <-; reflexivity|]).
  destruct i; discriminate H.
Qed.

Lemma nth_chromatic (i : nat) (note : string) :
  nth_error NOTE_NAMES i = Some note -> chromatic note.
Proof. intros H. eapply nth_error_In, H. Qed.

(** ** Unfolding lemmas *)

Lemma getNoteFrequency_unknown note octave :
  ~ chromatic note -> getNoteFrequency note octave = 0%R.
Proof.
  intros H. unfold getNoteFrequency. now rewrite (indexOf_absent _ H).
Qed.

Lemma getNoteFrequency_known note octave :
  chromatic note ->
  getNoteFrequency note octave =
  (440 * Rpower 2 (IZR (semitones octave (indexOf NOTE_NAMES note)) / 12))%R.
Proof.
  intros H. unfold getNoteFrequency.
  destruct (Z.eqb_spec (indexOf NOTE_NAMES note) (-1)) as [E|_].
  - now apply indexOf_present in H.
  - reflexivity.
Qed.

Lemma getNoteFrequency_soundboard_unknown note octave :
  ~ chromatic note -> getNoteFrequency_soundboard note octave = 440%R.
Proof.
  intros H. unfold getNoteFrequency_soundboard.
  now rewrite (indexOf_absent _ H).
Qed.

Lemma getNoteFrequency_editor_unknown note octave :
  ~ chromatic note -> getNoteFrequency_editor note octave = 440%R.
Proof.
  intros H. unfold getNoteFrequency_editor.
  now rewrite (indexOf_absent _ H).
Qed.

Lemma semitones_succ_octave octave k :
  (IZR (semitones (octave + 1) k) / 12 = IZR (semitones octave k) / 12 + 1)%R.
Proof.
  unfold semitones, a4Octave, a4Index.
  replace ((octave + 1 - 4) * 12 + (k - 9))
    with (((octave - 4) * 12 + (k - 9)) + 12) by ring.
  rewrite plus_IZR. lra.
Qed.

Lemma pow2_succ (x : R) : (Rpower 2 (x + 1) = 2 * Rpower 2 x)%R.
Proof.
  rewrite Rpower_plus, Rpower_1 by lra. lra.
Qed.

(** Over the reals one octave up doubles the frequency.  The doubles of
    the program need not agree to the last bit: the two sides are
    rounded separately, and [Math.pow] is approximated by the engine. *)
Lemma octave_up_over_reals note octave :
  chromatic note ->
  getNoteFrequency note (octave + 1) = (2 * getNoteFrequency note octave)%R.
Proof.
  intros H. rewrite !getNoteFrequency_known by exact H.
  rewrite semitones_succ_octave, pow2_succ. lra.
Qed.

Lemma H_not_chromatic : ~ chromatic "H".
Proof.
  unfold chromatic, NOTE_NAMES. simpl.
  intros H. repeat (destruct H as [H|H]; [discriminate H|]). exact H.
Qed.

End Frequency.

(* ===================================================================== *)
(** * Step sequencer (SequencerGrid) *)
(* ===================================================================== *)

Module Sequencer.

Local Open Scope Q_scope.

(** ** Data *)

Record Note := mkNote {
  id : string;
  note : string;
  octave : Z;
  startTime : Q;   (* in beats *)
  duration : Q;    (* in beats *)
  velocity : Q     (* 0-1 *)
}.

Record ADSREnvelope := mkEnvelope {
  attack : Q;
  decay : Q;
  sustain : Q;
  release : Q
}.

(** Calls made on an [AudioParam] (the per-note gain). *)
Inductive AutomationEvent :=
| SetValueAtTime (value time : Q)
| LinearRampToValueAtTime (value time : Q).

(** One oscillator with its private gain node, as [playNote] builds it:
    this is one request to the audio sink.  [osc_stopped] records an
    explicit [osc.stop()] made later by [stopAllNotes]. *)
Record Voice := mkVoice {
  osc_note : Note;                 (* frequency = getNoteFrequency(note.note, note.octave) *)
  osc_type : string;
  gain_events : list AutomationEvent;
  osc_start : Q;                   (* osc.start(startTime) *)
  osc_stop : Q;                    (* osc.stop(startTime + duration + 0.05) *)
  osc_stopped : option Q;          (* time of a later osc.stop() *)
  osc_connected : bool
}.

Definition osc_frequency (v : Voice) : R :=
  Frequency.getNoteFrequency (note (osc_note v)) (octave (osc_note v)).

(** Props of the component.  [audioContext] and [gainNode] are either
    null or present. *)
Record Props := mkProps {
  audioContext : bool;
  gainNode : bool;
  bpm : Q;
  bars : Q
}.

(** What a function created during one render sees: the props and the
    [useState] values of that render.  A callback handed to
    [setInterval] or [requestAnimationFrame] keeps the render in which
    it was created. *)
Record Render := mkRender {
  r_props : Props;
  r_notes : list Note;
  r_isPlaying : bool
}.

(** The component instance together with the host's timers and the
    audio sink.  Handles returned by [setInterval] and
    [requestAnimationFrame] are non-zero, so the source's truthiness
    tests on the refs are null tests. *)
Record State := mkState {
  props : Props;
  (* useState *)
  notes : list Note;
  isPlaying : bool;
  currentBeat : Q;
  (* useRef *)
  rafRef : option nat;
  lastTimeRef : Q;
  schedulerIntervalRef : option nat;
  oscillators : gmap string nat;
  (* host *)
  intervals : list (nat * Render);   (* active setInterval timers *)
  frames : list (nat * Render);      (* pending animation frame requests *)
  next_handle : nat;
  voices : list Voice                (* every oscillator created so far *)
}.

Definition render (st : State) : Render :=
  mkRender (props st) (notes st) (isPlaying st).

Definition initial (p : Props) (ns : list Note) : State :=
  mkState p ns false 0 None 0 None ∅ [] [] 1 [].

(** ** Field updates *)

Definition set_isPlaying (b : bool) (st : State) : State :=
  mkState (props st) (notes st) b (currentBeat st) (rafRef st)
    (lastTimeRef st) (schedulerIntervalRef st) (oscillators st)
    (intervals st) (frames st) (next_handle st) (voices st).

Definition set_currentBeat (x : Q) (st : State) : State :=
  mkState (props st) (notes st) (isPlaying st) x (rafRef st)
    (lastTimeRef st) (schedulerIntervalRef st) (oscillators st)
    (intervals st) (frames st) (next_handle st) (voices st).

Definition set_rafRef (h : option nat) (st : State) : State :=
  mkState (props st) (notes st) (isPlaying st) (currentBeat st) h
    (lastTimeRef st) (schedulerIntervalRef st) (oscillators st)
    (intervals st) (frames st) (next_handle st) (voices st).

Definition set_lastTimeRef (t : Q) (st : State) : State :=
  mkState (props st) (notes st) (isPlaying st) (currentBeat st) (rafRef st)
    t (schedulerIntervalRef st) (oscillators st)
    (intervals st) (frames st) (next_handle st) (voices st).

Definition set_schedulerIntervalRef (h : option nat) (st : State) : State :=
  mkState (props st) (notes st) (isPlaying st) (currentBeat st) (rafRef st)
    (lastTimeRef st) h (oscillators st)
    (intervals st) (frames st) (next_handle st) (voices st).

Definition set_oscillators (m : gmap string nat) (st : State) : State :=
  mkState (props st) (notes st) (isPlaying st) (currentBeat st) (rafRef st)
    (lastTimeRef st) (schedulerIntervalRef st) m
    (intervals st) (frames st) (next_handle st) (voices st).

Definition set_intervals (l : list (nat * Render)) (st : State) : State :=
  mkState (props st) (notes st) (isPlaying st) (currentBeat st) (rafRef st)
    (lastTimeRef st) (schedulerIntervalRef st) (oscillators st)
    l (frames st) (next_handle st) (voices st).

Definition set_frames (l : list (nat * Render)) (st : State) : State :=
  mkState (props st) (notes st) (isPlaying st) (currentBeat st) (rafRef st)
    (lastTimeRef st) (schedulerIntervalRef st) (oscillators st)
    (intervals st) l (next_handle st) (voices st).

Definition set_next_handle (n : nat) (st : State) : State :=
  mkState (props st) (notes st) (isPlaying st) (currentBeat st) (rafRef st)
    (lastTimeRef st) (schedulerIntervalRef st) (oscillators st)
    (intervals st) (frames st) n (voices st).

Definition set_voices (l : list Voice) (st : State) : State :=
  mkState (props st) (notes st) (isPlaying st) (currentBeat st) (rafRef st)
    (lastTimeRef st) (schedulerIntervalRef st) (oscillators st)
    (intervals st) (frames st) (next_handle st) l.

Definition set_notes (l : list Note) (st : State) : State :=
  mkState (props st) l (isPlaying st) (currentBeat st) (rafRef st)
    (lastTimeRef st) (schedulerIntervalRef st) (oscillators st)
    (intervals st) (frames st) (next_handle st) (voices st).

Definition set_props (p : Props) (st : State) : State :=
  mkState p (notes st) (isPlaying st) (currentBeat st) (rafRef st)
    (lastTimeRef st) (schedulerIntervalRef st) (oscillators st)
    (intervals st) (frames st) (next_handle st) (voices st).

(** ** Derived constants of a render *)

Definition Qltb (a b : Q) : bool := negb (Qle_bool b a).

(** [const totalBeats = bars * 4] *)
Definition totalBeats (p : Props) : Q := bars p * 4.

(** [const beatDuration = 60000 / bpm], in milliseconds.  At a tempo of
    0 JavaScript gives [Infinity] and [Q] gives [0]: [playStep] divides
    by it and gets 0 either way, and [in_window] below tests the tempo
    first. *)
Definition beatDuration (p : Props) : Q := 60000 / bpm p.

(** JavaScript [x % y] on numbers: the remainder of truncated division. *)
Definition js_rem (x y : Q) : Q :=
  let q := x / y in
  x - y * inject_Z (Z.quot (Qnum q) (Zpos (Qden q))).

(** ** Host primitives *)

Definition setInterval (env : Render) (st : State) : nat * State :=
  let h := next_handle st in
  (h, set_next_handle (S h) (set_intervals (intervals st ++ [(h, env)]) st)).

Definition clearInterval (h : nat) (st : State) : State :=
  set_intervals (List.filter (fun e => negb (Nat.eqb (fst e) h)) (intervals st)) st.

Definition requestAnimationFrame (env : Render) (st : State) : nat * State :=
  let h := next_handle st in
  (h, set_next_handle (S h) (set_frames (frames st ++ [(h, env)]) st)).

Definition cancelAnimationFrame (h : nat) (st : State) : State :=
  set_frames (List.filter (fun e => negb (Nat.eqb (fst e) h)) (frames st)) st.

(** ** playNote *)

(** The envelope literal of [playNote]. *)
Definition playNote_envelope : ADSREnvelope :=
  mkEnvelope (1 # 100) (1 # 10) (7 # 10) (3 # 10).

(** The block "Apply envelope" of [playNote]: the five calls on
    [noteGain.gain], in program order, for the local [envelope]. *)
Definition applyEnvelope (v : Q) (envelope : ADSREnvelope)
    (startTime duration : Q) : list AutomationEvent :=
  [ SetValueAtTime 0 startTime;
    LinearRampToValueAtTime v (startTime + attack envelope);
    LinearRampToValueAtTime (v * sustain envelope)
      (startTime + attack envelope + decay envelope);
    SetValueAtTime (v * sustain envelope)
      (startTime + duration - release envelope);
    LinearRampToValueAtTime 0 (startTime + duration) ].

(** [playNote(note, startTime, duration)] as seen from render [env]:
    creates the oscillator and its gain, schedules the envelope, starts
    and stops the oscillator and records it under [note.id]. *)
Definition playNote (env : Render) (n : Note) (startTime duration : Q)
    (st : State) : State :=
  if negb (audioContext (r_props env)) || negb (gainNode (r_props env)) then st
  else
    let osc := length (voices st) in
    let v := mkVoice n "sine"
               (applyEnvelope (velocity n) playNote_envelope startTime duration)
               startTime (startTime + duration + (5 # 100)) None true in
    set_oscillators (<[id n := osc]> (oscillators st))
      (set_voices (voices st ++ [v]) st).

(** [osc.onended]: forget the entry stored under the note's id and
    disconnect. *)
Definition onended (osc : nat) (st : State) : State :=
  match voices st !! osc with
  | None => st
  | Some v =>
      let v' := mkVoice (osc_note v) (osc_type v) (gain_events v) (osc_start v)
                  (osc_stop v) (osc_stopped v) false in
      set_voices (<[osc := v']> (voices st))
        (set_oscillators (delete (id (osc_note v)) (oscillators st)) st)
  end.

(** ** scheduleNotes *)

Definition lookAheadTime : Q := 1 # 10.

(** The start and the duration of a note in seconds, exactly; the
    doubles the source computes are these values rounded
    ([Doubles.noteStartTime]). *)
Definition noteStartTime (env : Render) (n : Note) : Q :=
  startTime n * beatDuration (r_props env) / 1000.

Definition noteDuration (env : Render) (n : Note) : Q :=
  duration n * beatDuration (r_props env) / 1000.

(** The test of the [if] inside [notes.forEach].  At a tempo of 0 the
    source's [beatDuration] is [Infinity] and a note's start is
    [Infinity], [-Infinity] or [NaN], for which the test is false
    whatever the clock reads; [Q] has no such values, so the tempo is
    looked at first. *)
Definition in_window (env : Render) (currentTime : Q) (n : Note) : bool :=
  negb (Qeq_bool (bpm (r_props env)) 0)
  && (Qle_bool currentTime (noteStartTime env n)
      && Qltb (noteStartTime env n) (currentTime + lookAheadTime)).

(** [scheduleNotes()] of render [env], run when the audio clock reads
    [currentTime]. *)
Definition scheduleNotes (env : Render) (currentTime : Q) (st : State) : State :=
  if negb (audioContext (r_props env)) || negb (gainNode (r_props env)) then st
  else
    fold_left
      (fun st n =>
         if in_window env currentTime n
         then playNote env n (noteStartTime env n) (noteDuration env n) st
         else st)
      (r_notes env) st.

(** ** stopAllNotes, playStep, start and stop *)

Definition stop_voice (now : Q) (v : Voice) : Voice :=
  mkVoice (osc_note v) (osc_type v) (gain_events v) (osc_start v)
    (osc_stop v) (Some now) false.

(** [stopAllNotes()]: [osc.stop(); osc.disconnect()] for every value of
    the [oscillators] map, then [clear()]. *)
Definition stopAllNotes (now : Q) (st : State) : State :=
  let oscs := map snd (map_to_list (oscillators st)) in
  set_oscillators ∅
    (set_voices
       (fold_left (fun vs o => alter (stop_voice now) o vs) oscs (voices st))
       st).

(** [playStep] of render [env]: its guard reads the [isPlaying] of the
    render that created it. *)
Definition playStep (env : Render) (now : Q) (st : State) : State :=
  if negb (r_isPlaying env) || negb (audioContext (r_props env)) then st
  else
    let elapsed := now - lastTimeRef st in
    let beatPosition := (elapsed / beatDuration (r_props env)) * 1000 in
    let currentBeatPosition := js_rem beatPosition (totalBeats (r_props env)) in
    let st := set_currentBeat currentBeatPosition st in
    let '(h, st) := requestAnimationFrame env st in
    set_rafRef (Some h) st.

(** [startSequencer()] called from render [env] when the audio clock
    reads [now].  The handle of the first animation frame request is not
    kept; the interval's handle is. *)
Definition startSequencer (env : Render) (now : Q) (st : State) : State :=
  if negb (audioContext (r_props env)) then st
  else
    let st := set_isPlaying true st in
    let st := set_currentBeat 0 st in
    let st := set_lastTimeRef now st in
    let '(_, st) := requestAnimationFrame env st in
    let '(h, st) := setInterval env st in
    set_schedulerIntervalRef (Some h) st.

(** [stopSequencer()]. *)
Definition stopSequencer (now : Q) (st : State) : State :=
  let st := set_isPlaying false st in
  let st := match rafRef st with
            | Some h => set_rafRef None (cancelAnimationFrame h st)
            | None => st
            end in
  let st := match schedulerIntervalRef st with
            | Some h => set_schedulerIntervalRef None (clearInterval h st)
            | None => st
            end in
  stopAllNotes now st.

(** [togglePlay()] of render [env]. *)
Definition togglePlay (env : Render) (now : Q) (st : State) : State :=
  if r_isPlaying env then stopSequencer now st else startSequencer env now st.

(** ** Events of the host *)

Inductive Event :=
| Toggle (now : Q)                 (* click on the play / pause button *)
| Tick (h : nat) (now : Q)         (* interval timer [h] fires *)
| Frame (h : nat) (now : Q)        (* animation frame request [h] fires *)
| Ended (osc : nat)                (* [onended] of an oscillator *)
| Preview (i : nat) (now : Q)      (* double click on the i-th note block *)
| SetNotes (l : list Note)         (* any edit of the pattern *)
| SetProps (p : Props).            (* the parent re-renders with new props *)

Definition find_handle (h : nat) (l : list (nat * Render)) : option Render :=
  snd <$> List.find (fun e => Nat.eqb (fst e) h) l.

(** User events run the handlers of the latest render; timer callbacks
    run with the render that created them.  A timer that is not active
    cannot fire. *)
Definition step (e : Event) (st : State) : State :=
  match e with
  | Toggle now => togglePlay (render st) now st
  | Tick h now =>
      match find_handle h (intervals st) with
      | Some env => scheduleNotes env now st
      | None => st
      end
  | Frame h now =>
      match find_handle h (frames st) with
      | Some env => playStep env now (cancelAnimationFrame h st)
      | None => st
      end
  | Ended osc => onended osc st
  | Preview i now =>
      match notes st !! i with
      | Some n =>
          if audioContext (props st) && gainNode (props st)
          then playNote (render st) n now (1 # 2) st
          else st
      | None => st
      end
  | SetNotes l => set_notes l st
  | SetProps p => set_props p st
  end.

Definition run (es : list Event) (st : State) : State :=
  fold_left (fun st e => step e st) es st.

(** ** Observations *)

(** A voice is audible at [t] when [t] lies between its start and its
    scheduled stop and no explicit stop has taken effect. *)
Definition sounding (t : Q) (v : Voice) : bool :=
  Qle_bool (osc_start v) t && Qltb t (osc_stop v)
  && match osc_stopped v with
     | Some s => Qltb t s
     | None => true
     end.

(** Number of requests made to the audio sink for the note with id [i]. *)
Definition dispatches_of (i : string) (st : State) : nat :=
  length (List.filter (fun v => String.eqb (id (osc_note v)) i) (voices st)).

(** The tick times [t0 + period], [t0 + 2 period], ... ([n] of them). *)
Fixpoint ticks (h : nat) (t0 period : Q) (n : nat) : list Event :=
  match n with
  | O => []
  | S n' => Tick h (Qred (t0 + period)) :: ticks h (Qred (t0 + period)) period n'
  end.

(** ** The timing the specification describes *)

(** Start of a note as an offset from the reference timestamp taken at
    Stopped -> Playing, and the look-ahead test on it. *)
Definition spec_noteStart (reference : Q) (p : Props) (n : Note) : Q :=
  reference + startTime n * beatDuration p / 1000.

Definition spec_due (reference : Q) (p : Props) (currentTime : Q) (n : Note) : bool :=
  Qle_bool currentTime (spec_noteStart reference p n)
  && Qltb (spec_noteStart reference p n) (currentTime + lookAheadTime).

(** ** AudioParam automation (Web Audio): reading breakpoints as a curve *)

(** The sink keeps the events of a parameter ordered by time; an event
    added at a time that already has events goes after them. *)
Definition event_value (e : AutomationEvent) : Q :=
  match e with
  | SetValueAtTime v _ => v
  | LinearRampToValueAtTime v _ => v
  end.

Definition event_time (e : AutomationEvent) : Q :=
  match e with
  | SetValueAtTime _ t => t
  | LinearRampToValueAtTime _ t => t
  end.

Fixpoint insert_event (e : AutomationEvent) (tl : list AutomationEvent)
    : list AutomationEvent :=
  match tl with
  | [] => [e]
  | e' :: tl' =>
      if Qle_bool (event_time e') (event_time e)
      then e' :: insert_event e tl'
      else e :: e' :: tl'
  end.

Definition timeline (calls : list AutomationEvent) : list AutomationEvent :=
  fold_left (fun tl e => insert_event e tl) calls [].

(** Value of the parameter at [t]: [v0] held since [t0], then each event
    in turn; a ramp interpolates linearly from the previous event. *)
Fixpoint value_from (v0 t0 : Q) (tl : list AutomationEvent) (t : Q) : Q :=
  match tl with
  | [] => v0
  | SetValueAtTime v te :: tl' =>
      if Qltb t te then v0 else value_from v te tl' t
  | LinearRampToValueAtTime v te :: tl' =>
      if Qltb t te then v0 + (v - v0) * ((t - t0) / (te - t0))
      else value_from v te tl' t
  end.

(** Gain of a voice at time [t] ([noteGain.gain.value = 0] initially). *)
Definition gain_at (v : Voice) (t : Q) : Q :=
  value_from 0 (osc_start v) (timeline (gain_events v)) t.

(** ** Facts: playNote and scheduleNotes *)

Definition audio_ready (env : Render) : bool :=
  audioContext (r_props env) && gainNode (r_props env).

Definition voice_of (n : Note) (startTime duration : Q) : Voice :=
  mkVoice n "sine"
    (applyEnvelope (velocity n) playNote_envelope startTime duration)
    startTime (startTime + duration + (5 # 100)) None true.

Lemma guard_ready env :
  negb (audioContext (r_props env)) || negb (gainNode (r_props env))
  = negb (audio_ready env).
Proof.
  unfold audio_ready.
  destruct (audioContext (r_props env)), (gainNode (r_props env)); reflexivity.
Qed.

Lemma playNote_voices env n s d st :
  voices (playNote env n s d st) =
  if audio_ready env then voices st ++ [voice_of n s d] else voices st.
Proof.
  unfold playNote. rewrite guard_ready.
  destruct (audio_ready env); reflexivity.
Qed.

Lemma playNote_intervals env n s d st :
  intervals (playNote env n s d st) = intervals st.
Proof. unfold playNote. now destruct (_ || _). Qed.

Lemma playNote_frames env n s d st :
  frames (playNote env n s d st) = frames st.
Proof. unfold playNote. now destruct (_ || _). Qed.

Lemma playNote_refs env n s d st :
  schedulerIntervalRef (playNote env n s d st) = schedulerIntervalRef st /\
  rafRef (playNote env n s d st) = rafRef st /\
  isPlaying (playNote env n s d st) = isPlaying st /\
  lastTimeRef (playNote env n s d st) = lastTimeRef st.
Proof. unfold playNote. now destruct (_ || _). Qed.

(** The notes a tick dispatches, in pattern order. *)
Definition due (env : Render) (currentTime : Q) : list Note :=
  List.filter (in_window env currentTime) (r_notes env).

Definition scheduled_voice (env : Render) (n : Note) : Voice :=
  voice_of n (noteStartTime env n) (noteDuration env n).

Lemma scheduleNotes_loop env now ns st :
  audio_ready env = true ->
  voices
    (fold_left
       (fun st n =>
          if in_window env now n
          then playNote env n (noteStartTime env n) (noteDuration env n) st
          else st) ns st)
  = voices st ++ map (scheduled_voice env) (List.filter (in_window env now) ns).
Proof.
  intros Hr. revert st. induction ns as [|n ns IH]; intros st; simpl.
  - now rewrite app_nil_r.
  - rewrite IH. destruct (in_window env now n); [|reflexivity].
    rewrite playNote_voices, Hr. simpl. now rewrite <- app_assoc.
Qed.

(** A tick dispatches exactly the notes whose pattern-relative start
    lies in [[currentTime, currentTime + 0.1)]. *)
Lemma scheduleNotes_voices env now st :
  voices (scheduleNotes env now st) =
  if audio_ready env
  then voices st ++ map (scheduled_voice env) (due env now)
  else voices st.
Proof.
  unfold scheduleNotes. rewrite guard_ready.
  destruct (audio_ready env) eqn:Hr; simpl; [|reflexivity].
  now apply scheduleNotes_loop.
Qed.

Lemma scheduleNotes_keeps env now st :
  intervals (scheduleNotes env now st) = intervals st /\
  frames (scheduleNotes env now st) = frames st /\
  schedulerIntervalRef (scheduleNotes env now st) = schedulerIntervalRef st /\
  rafRef (scheduleNotes env now st) = rafRef st /\
  isPlaying (scheduleNotes env now st) = isPlaying st.
Proof.
  unfold scheduleNotes. destruct (_ || _); [tauto|].
  generalize (r_notes env) as ns. intros ns. revert st.
  induction ns as [|n ns IH]; intros st; simpl; [tauto|].
  destruct (IH (if in_window env now n
                then playNote env n (noteStartTime env n) (noteDuration env n) st
                else st)) as (H1 & H2 & H3 & H4 & H5).
  rewrite H1, H2, H3, H4, H5.
  destruct (in_window env now n); [|tauto].
  rewrite playNote_intervals, playNote_frames.
  destruct (playNote_refs env n (noteStartTime env n) (noteDuration env n) st)
    as (-> & -> & -> & _).
  tauto.
Qed.

(** The window test never looks at the reference timestamp: it compares
    the audio clock with [startTime * beatDuration / 1000]. *)
Lemma in_window_spec env now n :
  in_window env now n = true <->
  ~ bpm (r_props env) == 0 /\
  now <= startTime n * (60000 / bpm (r_props env)) / 1000
  /\ startTime n * (60000 / bpm (r_props env)) / 1000 < now + (1 # 10).
Proof.
  unfold in_window, Qltb, noteStartTime, beatDuration, lookAheadTime.
  rewrite !andb_true_iff, !negb_true_iff, Qle_bool_iff.
  assert (Hz : Qeq_bool (bpm (r_props env)) 0 = false <-> ~ bpm (r_props env) == 0).
  { split.
    - intros H E. apply Qeq_bool_iff in E. congruence.
    - intros H. destruct (Qeq_bool _ _) eqn:E; [|reflexivity].
      apply Qeq_bool_iff in E. contradiction. }
  rewrite Hz.
  split; intros (H0 & H1 & H2); (split; [exact H0|]); split; try exact H1.
  - apply Qnot_le_lt. intros H. apply Qle_bool_iff in H. congruence.
  - destruct (Qle_bool _ _) eqn:E; [|reflexivity].
    apply Qle_bool_iff in E. exfalso. revert E. now apply Qlt_not_le.
Qed.

(** At a tempo of 0 no tick finds a note in its window. *)
Lemma in_window_tempo0 env now n :
  bpm (r_props env) == 0 -> in_window env now n = false.
Proof.
  intros H. unfold in_window.
  now rewrite (proj2 (Qeq_bool_iff _ _) H).
Qed.

(** A note placed on beat 0 is only ever dispatched by a tick at which
    the audio clock reads at most 0. *)
Lemma beat0_needs_clock0 env now n :
  startTime n == 0 -> 0 < now -> in_window env now n = false.
Proof.
  intros H0 Hnow. destruct (in_window env now n) eqn:E; [|reflexivity].
  apply in_window_spec in E. destruct E as (_ & E & _). exfalso.
  rewrite H0 in E. unfold Qdiv in E. rewrite !Qmult_0_l in E.
  revert E. now apply Qlt_not_le.
Qed.

(** ** Facts: the interval timer is tracked by its ref *)

(** Every active interval timer of the component is the one recorded in
    [schedulerIntervalRef], and there is none while stopped. *)
Definition tracked (st : State) : Prop :=
  Forall (fun e => schedulerIntervalRef st = Some (fst e)) (intervals st)
  /\ (isPlaying st = false -> intervals st = []).

Definition timer_event (e : Event) : bool :=
  match e with
  | Tick _ _ | Frame _ _ | Ended _ => true
  | _ => false
  end.

Lemma stopAllNotes_keeps now st :
  intervals (stopAllNotes now st) = intervals st /\
  frames (stopAllNotes now st) = frames st /\
  schedulerIntervalRef (stopAllNotes now st) = schedulerIntervalRef st /\
  rafRef (stopAllNotes now st) = rafRef st /\
  isPlaying (stopAllNotes now st) = isPlaying st /\
  oscillators (stopAllNotes now st) = ∅.
Proof. unfold stopAllNotes. simpl. tauto. Qed.

Lemma alter_stop_length now (oscs : list nat) (vs : list Voice) :
  length (fold_left (fun vs o => alter (stop_voice now) o vs) oscs vs)
  = length vs.
Proof.
  revert vs. induction oscs as [|o oscs IH]; intros vs; simpl; [reflexivity|].
  rewrite IH. apply length_alter.
Qed.

Lemma stopAllNotes_length now st :
  length (voices (stopAllNotes now st)) = length (voices st).
Proof. unfold stopAllNotes. simpl. apply alter_stop_length. Qed.

Lemma clear_tracked_interval h l :
  Forall (fun e : nat * Render => Some h = Some (fst e)) l ->
  List.filter (fun e => negb (Nat.eqb (fst e) h)) l = [].
Proof.
  induction 1 as [|e l He _ IH]; simpl; [reflexivity|].
  injection He as ->. now rewrite Nat.eqb_refl.
Qed.

(** After [stopSequencer] nothing of the playback machinery that the
    refs know about is left: no interval timer, no tracked frame
    request, no entry in [oscillators]. *)
Lemma stopSequencer_clears now st :
  tracked st ->
  let st' := stopSequencer now st in
  isPlaying st' = false /\ intervals st' = [] /\
  schedulerIntervalRef st' = None /\ rafRef st' = None /\
  oscillators st' = ∅ /\
  length (voices st') = length (voices st) /\
  (forall h, rafRef st = Some h -> find_handle h (frames st') = None).
Proof.
  intros [Hall _]. unfold stopSequencer. cbv zeta.
  set (s1 := set_isPlaying false st).
  set (s2 := match rafRef s1 with
             | Some h => set_rafRef None (cancelAnimationFrame h s1)
             | None => s1 end).
  set (s3 := match schedulerIntervalRef s2 with
             | Some h => set_schedulerIntervalRef None (clearInterval h s2)
             | None => s2 end).
  destruct (stopAllNotes_keeps now s3) as (E1 & E2 & E3 & E4 & E5 & E6).
  rewrite E1, E2, E3, E4, E5, E6, stopAllNotes_length.
  assert (Hs2 : intervals s2 = intervals st /\
                schedulerIntervalRef s2 = schedulerIntervalRef st /\
                rafRef s2 = None /\ isPlaying s2 = false /\
                voices s2 = voices st /\
                (forall h, rafRef st = Some h -> find_handle h (frames s2) = None)).
  { subst s2 s1. simpl. destruct (rafRef st) as [h|] eqn:Er; simpl.
    - repeat split; try reflexivity. intros h' [= <-].
      unfold find_handle.
      destruct (List.find _ _) as [e|] eqn:Ef; [|reflexivity].
      apply find_some in Ef. destruct Ef as [Hin He].
      apply filter_In in Hin. destruct Hin as [_ Hne].
      rewrite He in Hne. discriminate Hne.
    - rewrite Er. repeat split; try reflexivity. intros h' [=]. }
  destruct Hs2 as (I2 & R2 & F2 & P2 & V2 & C2).
  assert (Hs3 : intervals s3 = [] /\ schedulerIntervalRef s3 = None /\
                rafRef s3 = None /\ isPlaying s3 = false /\
                voices s3 = voices st /\ frames s3 = frames s2).
  { subst s3. destruct (schedulerIntervalRef s2) as [h|] eqn:Es; simpl.
    - rewrite F2, P2, V2, I2. repeat split; try reflexivity.
      apply clear_tracked_interval. rewrite R2. exact Hall.
    - rewrite Es, F2, P2, V2, I2. repeat split; try reflexivity.
      rewrite <- R2 in Hall.
      destruct (intervals st) as [|e l]; [reflexivity|].
      inversion Hall as [|? ? He _]. discriminate He. }
  destruct Hs3 as (I3 & R3 & F3 & P3 & V3 & Fr3).
  rewrite I3, R3, F3, P3, V3, Fr3. repeat split; try reflexivity. exact C2.
Qed.

Lemma onended_keeps osc st :
  intervals (onended osc st) = intervals st /\
  frames (onended osc st) = frames st /\
  schedulerIntervalRef (onended osc st) = schedulerIntervalRef st /\
  isPlaying (onended osc st) = isPlaying st /\
  length (voices (onended osc st)) = length (voices st).
Proof.
  unfold onended. destruct (voices st !! osc); simpl; [|tauto].
  rewrite length_insert. tauto.
Qed.

Lemma playStep_keeps env now st :
  intervals (playStep env now st) = intervals st /\
  schedulerIntervalRef (playStep env now st) = schedulerIntervalRef st /\
  isPlaying (playStep env now st) = isPlaying st /\
  voices (playStep env now st) = voices st.
Proof. unfold playStep. destruct (_ || _); simpl; tauto. Qed.

Lemma run_cons e es st : run (e :: es) st = run es (step e st).
Proof. reflexivity. Qed.

(** With no interval timer left, timer and oscillator callbacks make no
    request to the audio sink. *)
Lemma no_timer_no_dispatch es st :
  intervals st = [] ->
  forallb timer_event es = true ->
  intervals (run es st) = [] /\
  length (voices (run es st)) = length (voices st).
Proof.
  revert st. induction es as [|e es IH]; intros st Hi He; [simpl; tauto|].
  rewrite run_cons. simpl in He. apply andb_true_iff in He. destruct He as [He Hes].
  assert (Hstep : intervals (step e st) = [] /\
                  length (voices (step e st)) = length (voices st)).
  { destruct e; try discriminate He; simpl.
    - rewrite Hi. simpl. tauto.
    - destruct (find_handle h (frames st)); [|tauto].
      destruct (playStep_keeps r now (cancelAnimationFrame h st))
        as (-> & _ & _ & ->). simpl. tauto.
    - destruct (onended_keeps osc st) as (-> & _ & _ & _ & ->). tauto. }
  destruct Hstep as [Hi' Hl'].
  destruct (IH (step e st) Hi' Hes) as [H1 H2].
  rewrite H1, H2, Hl'. tauto.
Qed.

Lemma startSequencer_tracked env now st :
  tracked st -> isPlaying st = false -> tracked (startSequencer env now st).
Proof.
  intros [_ Hstop] Hp. specialize (Hstop Hp).
  unfold startSequencer. destruct (negb _).
  - split; [rewrite Hstop; constructor|intros _; exact Hstop].
  - simpl. rewrite Hstop. simpl. split.
    + constructor; [reflexivity|constructor].
    + intros H. discriminate H.
Qed.

Lemma step_tracked e st : tracked st -> tracked (step e st).
Proof.
  intros Ht. destruct e; simpl.
  - unfold togglePlay, render. simpl. destruct (isPlaying st) eqn:Hp.
    + destruct (stopSequencer_clears now st Ht) as (_ & Hi & _).
      split; [rewrite Hi; constructor|intros _; exact Hi].
    + now apply startSequencer_tracked.
  - destruct (find_handle h (intervals st)); [|exact Ht].
    destruct (scheduleNotes_keeps r now st) as (E1 & _ & E3 & _ & E5).
    unfold tracked. rewrite E1, E3, E5. exact Ht.
  - destruct (find_handle h (frames st)); [|exact Ht].
    destruct (playStep_keeps r now (cancelAnimationFrame h st))
      as (E1 & E2 & E3 & _).
    unfold tracked. rewrite E1, E2, E3. exact Ht.
  - destruct (onended_keeps osc st) as (E1 & _ & E3 & E4 & _).
    unfold tracked. rewrite E1, E3, E4. exact Ht.
  - destruct (notes st !! i); [|exact Ht].
    destruct (_ && _); [|exact Ht].
    unfold tracked. rewrite playNote_intervals.
    destruct (playNote_refs (render st) n now (1 # 2) st) as (-> & _ & -> & _).
    exact Ht.
  - exact Ht.
  - exact Ht.
Qed.

Lemma initial_tracked p ns : tracked (initial p ns).
Proof. split; [constructor|reflexivity]. Qed.

Lemma run_tracked es st : tracked st -> tracked (run es st).
Proof.
  revert st. induction es as [|e es IH]; intros st Ht; [exact Ht|].
  rewrite run_cons. apply IH. now apply step_tracked.
Qed.

(** The timer-driven part of the Playing -> Stopped transition: in any
    state the component can reach, pressing the button while playing
    leaves no interval timer, and whatever timer, frame and [onended]
    callbacks run afterwards, the audio sink receives no further
    request. *)
Lemma stop_then_no_late_dispatch p ns es now later :
  let st := run es (initial p ns) in
  isPlaying st = true ->
  forallb timer_event later = true ->
  let st' := step (Toggle now) st in
  isPlaying st' = false /\ intervals st' = [] /\
  schedulerIntervalRef st' = None /\ rafRef st' = None /\
  oscillators st' = ∅ /\
  length (voices (run later st')) = length (voices st).
Proof.
  intros st Hp Hl st'.
  assert (Ht : tracked st) by (apply run_tracked, initial_tracked).
  assert (E : st' = stopSequencer now st).
  { subst st'. simpl. unfold togglePlay, render. simpl. now rewrite Hp. }
  destruct (stopSequencer_clears now st Ht) as (H1 & H2 & H3 & H4 & H5 & H6 & _).
  rewrite E. repeat split; try assumption.
  destruct (no_timer_no_dispatch later _ H2 Hl) as [_ ->]. exact H6.
Qed.

(** ** Facts: the gain curve of a well-ordered envelope *)

(** The curve a list of automation calls produces, from value 0 at [t0]. *)
Definition curve (calls : list AutomationEvent) (t0 t : Q) : Q :=
  value_from 0 t0 (timeline calls) t.

Lemma gain_at_curve v t : gain_at v t = curve (gain_events v) (osc_start v) t.
Proof. reflexivity. Qed.

Lemma Qle_bool_true a b : a <= b -> Qle_bool a b = true.
Proof. apply Qle_bool_iff. Qed.

Lemma Qltb_true a b : a < b -> Qltb a b = true.
Proof.
  intros H. unfold Qltb. destruct (Qle_bool b a) eqn:E; [|reflexivity].
  apply Qle_bool_iff in E. exfalso. revert E. now apply Qlt_not_le.
Qed.

Lemma Qltb_false a b : b <= a -> Qltb a b = false.
Proof. intros H. unfold Qltb. now rewrite (Qle_bool_true _ _ H). Qed.

(** When attack, decay and release fit into the duration, the sink keeps
    the five calls in program order. *)
Lemma timeline_ordered v env start d :
  0 <= attack env -> 0 <= decay env -> 0 <= release env ->
  attack env + decay env <= d - release env ->
  timeline (applyEnvelope v env start d) = applyEnvelope v env start d.
Proof.
  intros Ha Hd Hr Hfit. unfold timeline, applyEnvelope. simpl.
  repeat (rewrite Qle_bool_true by (simpl; lra); simpl).
  reflexivity.
Qed.

(** The curve then is the claimed one: 0 at the start, the peak after the
    attack, the sustain level after the decay and until the release
    begins, and 0 at the end of the note. *)
Lemma curve_ordered v env start d :
  0 < attack env -> 0 < decay env -> 0 < release env ->
  attack env + decay env <= d - release env ->
  curve (applyEnvelope v env start d) start start == 0 /\
  curve (applyEnvelope v env start d) start (start + attack env) == v /\
  curve (applyEnvelope v env start d) start
    (start + attack env + decay env) == v * sustain env /\
  (forall t, start + attack env + decay env <= t ->
             t < start + d - release env ->
             curve (applyEnvelope v env start d) start t == v * sustain env) /\
  curve (applyEnvelope v env start d) start (start + d) == 0.
Proof.
  intros Ha Hd Hr Hfit. unfold curve.
  rewrite timeline_ordered by lra. unfold applyEnvelope.
  repeat split.
  - simpl. rewrite Qltb_false by lra. rewrite Qltb_true by lra.
    field. lra.
  - simpl. rewrite Qltb_false by lra. rewrite Qltb_false by lra.
    rewrite Qltb_true by lra. field. lra.
  - simpl. do 3 rewrite Qltb_false by lra.
    destruct (Qlt_le_dec (start + attack env + decay env)
                (start + d - release env)) as [Hlt|Hle].
    + now rewrite Qltb_true by lra.
    + rewrite Qltb_false by lra. rewrite Qltb_true by lra.
      assert (E : start + attack env + decay env == start + d - release env)
        by lra.
      rewrite E. field. lra.
  - intros t H1 H2. simpl. do 3 rewrite Qltb_false by lra.
    now rewrite Qltb_true by lra.
  - simpl. now do 5 rewrite Qltb_false by lra.
Qed.

End Sequencer.

(* ===================================================================== *)
(** * Recording timer (RecordingControls and the soundboard's hook) *)
(* ===================================================================== *)

Module Recorder.

Local Open Scope Z_scope.

(** [interface Note] of RecordingControls.tsx; [time] is in milliseconds
    since the recording started. *)
Record Note := mkNote {
  note : string;
  octave : Z;
  time : Z
}.

(** [window.__pianoRecordingState]. *)
Record GlobalState := mkGlobal {
  g_isRecording : bool;
  g_recordedNotes : list Note;
  g_startTime : option Z;
  g_metronomeEnabled : bool;
  g_tempo : Z
}.

(** The RecordingControls instance, the recording hook of the
    soundboard page, the shared global and the host's timers.
    [completed] lists the buffers handed to [onRecordingComplete]. *)
Record State := mkState {
  audioContext : bool;
  (* RecordingControls: useState / useRef *)
  isRecording : bool;
  recordedNotes : list Note;
  startTimeRef : option Z;
  tempo : Z;
  metronomeEnabled : bool;
  isMetronomePlaying : bool;
  metronomeIntervalRef : option nat;
  recordingTime : Z;
  recordingTimerRef : option nat;
  (* PianoSoundboard *)
  sb_octave : Z;
  sb_isRecording : bool;
  sb_recordedSequence : list Note;
  sb_recordingStartTimeRef : option Z;
  (* window and host *)
  global : option GlobalState;
  timers : list nat;
  next_handle : nat;
  completed : list (list Note)
}.

(** The mounted component: the effect that keeps the global copy has
    run once. *)
Definition initial (audio : bool) : State :=
  mkState audio false [] None 120 false false None 0 None
    4 false [] None (Some (mkGlobal false [] None false 120)) [] 1 [].

(** Truthiness of a [number | null] ref: [null], [0] (and [NaN]) are
    falsy. *)
Definition truthy (r : option Z) : bool :=
  match r with
  | Some t => negb (t =? 0)
  | None => false
  end.

(** ** Field updates *)

Definition with_recording (b : bool) (ns : list Note) (start : option Z)
    (rt : Z) (st : State) : State :=
  mkState (audioContext st) b ns start (tempo st) (metronomeEnabled st)
    (isMetronomePlaying st) (metronomeIntervalRef st) rt
    (recordingTimerRef st) (sb_octave st) (sb_isRecording st)
    (sb_recordedSequence st) (sb_recordingStartTimeRef st) (global st)
    (timers st) (next_handle st) (completed st).

Definition with_metronome (playing : bool) (h : option nat) (st : State) : State :=
  mkState (audioContext st) (isRecording st) (recordedNotes st)
    (startTimeRef st) (tempo st) (metronomeEnabled st) playing h
    (recordingTime st) (recordingTimerRef st) (sb_octave st)
    (sb_isRecording st) (sb_recordedSequence st)
    (sb_recordingStartTimeRef st) (global st) (timers st) (next_handle st)
    (completed st).

Definition with_recordingTimerRef (h : option nat) (st : State) : State :=
  mkState (audioContext st) (isRecording st) (recordedNotes st)
    (startTimeRef st) (tempo st) (metronomeEnabled st)
    (isMetronomePlaying st) (metronomeIntervalRef st) (recordingTime st) h
    (sb_octave st) (sb_isRecording st) (sb_recordedSequence st)
    (sb_recordingStartTimeRef st) (global st) (timers st) (next_handle st)
    (completed st).

Definition with_soundboard (b : bool) (ns : list Note) (start : option Z)
    (st : State) : State :=
  mkState (audioContext st) (isRecording st) (recordedNotes st)
    (startTimeRef st) (tempo st) (metronomeEnabled st)
    (isMetronomePlaying st) (metronomeIntervalRef st) (recordingTime st)
    (recordingTimerRef st) (sb_octave st) b ns start (global st) (timers st)
    (next_handle st) (completed st).

Definition with_global (g : option GlobalState) (st : State) : State :=
  mkState (audioContext st) (isRecording st) (recordedNotes st)
    (startTimeRef st) (tempo st) (metronomeEnabled st)
    (isMetronomePlaying st) (metronomeIntervalRef st) (recordingTime st)
    (recordingTimerRef st) (sb_octave st) (sb_isRecording st)
    (sb_recordedSequence st) (sb_recordingStartTimeRef st) g (timers st)
    (next_handle st) (completed st).

Definition with_timers (l : list nat) (n : nat) (st : State) : State :=
  mkState (audioContext st) (isRecording st) (recordedNotes st)
    (startTimeRef st) (tempo st) (metronomeEnabled st)
    (isMetronomePlaying st) (metronomeIntervalRef st) (recordingTime st)
    (recordingTimerRef st) (sb_octave st) (sb_isRecording st)
    (sb_recordedSequence st) (sb_recordingStartTimeRef st) (global st) l n
    (completed st).

Definition with_completed (l : list (list Note)) (st : State) : State :=
  mkState (audioContext st) (isRecording st) (recordedNotes st)
    (startTimeRef st) (tempo st) (metronomeEnabled st)
    (isMetronomePlaying st) (metronomeIntervalRef st) (recordingTime st)
    (recordingTimerRef st) (sb_octave st) (sb_isRecording st)
    (sb_recordedSequence st) (sb_recordingStartTimeRef st) (global st)
    (timers st) (next_handle st) l.

(** ** Host timers *)

Definition setInterval (st : State) : nat * State :=
  let h := next_handle st in
  (h, with_timers (timers st ++ [h]) (S h) st).

Definition clearInterval (h : nat) (st : State) : State :=
  with_timers (List.filter (fun k => negb (Nat.eqb k h)) (timers st))
    (next_handle st) st.

(** ** Metronome (the click itself is not modelled) *)

Definition startMetronome (st : State) : State :=
  if negb (audioContext st) then st
  else let '(h, st) := setInterval st in with_metronome true (Some h) st.

Definition stopMetronome (st : State) : State :=
  let st := match metronomeIntervalRef st with
            | Some h => with_metronome (isMetronomePlaying st) None
                          (clearInterval h st)
            | None => st
            end in
  with_metronome false (metronomeIntervalRef st) st.

(** ** The soundboard's listeners *)

(** [handleStartRecording]: listener of ['piano:start-recording']. *)
Definition handleStartRecording (ns : list Note) (now : Z) (st : State) : State :=
  with_soundboard true ns (Some now) st.

(** [handleStopRecording]: listener of ['piano:stop-recording']. *)
Definition handleStopRecording (st : State) : State :=
  with_soundboard false (sb_recordedSequence st) None st.

(** ** Effects *)

(** The effect on [isRecording, recordedNotes, metronomeEnabled, tempo]:
    after a render in which one of them changed, it rewrites the global
    copy from the component. *)
Definition sync_global (st : State) : State :=
  with_global
    (Some (mkGlobal (isRecording st) (recordedNotes st) (startTimeRef st)
             (metronomeEnabled st) (tempo st))) st.

(** The cleanup of the effect on [isRecording], as left by a render in
    which [isRecording] was [recording]; React runs it when a later
    render changes [isRecording].  When that render was not recording it
    clears the intervals the two refs point to, and leaves the refs as
    they are. *)
Definition cleanup (recording : bool) (st : State) : State :=
  if recording then st
  else
    let st := match metronomeIntervalRef st with
              | Some h => clearInterval h st
              | None => st
              end in
    match recordingTimerRef st with
    | Some h => clearInterval h st
    | None => st
    end.

(** The effects that follow a handler.  [before] is the state the
    handler started from; [notes] tells whether the handler gave
    [setRecordedNotes] a new array. *)
Definition commit (before : State) (notes : bool) (st : State) : State :=
  let changed := negb (Bool.eqb (isRecording before) (isRecording st)) in
  let st := if changed then cleanup (isRecording before) st else st in
  if changed || notes then sync_global st else st.

(** ** RecordingControls *)

(** [startRecording()], with [Date.now() = now], and the effects of the
    render that follows. *)
Definition startRecording (now : Z) (st : State) : State :=
  let before := st in
  let enabled := metronomeEnabled st in
  let playing := isMetronomePlaying st in
  let st := with_recording true [] (Some now) 0 st in
  let st := with_global
              (Some (mkGlobal true [] (Some now) enabled (tempo st))) st in
  let st := handleStartRecording [] now st in
  let '(h, st) := setInterval st in
  let st := with_recordingTimerRef (Some h) st in
  let st := if enabled && negb playing then startMetronome st else st in
  commit before true st.

(** [stopRecording()]: the buffer of the current render goes to
    [onRecordingComplete]. *)
Definition stopRecording (st : State) : State :=
  let before := st in
  let buffer := recordedNotes st in
  let enabled := metronomeEnabled st in
  let playing := isMetronomePlaying st in
  let st := with_recording false (recordedNotes st) (startTimeRef st)
              (recordingTime st) st in
  let st := match global st with
            | Some g => with_global
                          (Some (mkGlobal false (g_recordedNotes g)
                                   (g_startTime g) (g_metronomeEnabled g)
                                   (g_tempo g))) st
            | None => st
            end in
  let st := handleStopRecording st in
  let st := match recordingTimerRef st with
            | Some h => with_recordingTimerRef None (clearInterval h st)
            | None => st
            end in
  let st := if playing && negb enabled then stopMetronome st else st in
  commit before false (with_completed (completed st ++ [buffer]) st).

(** [resetRecording()]. *)
Definition resetRecording (st : State) : State :=
  let before := st in
  let st := with_recording false [] None 0 st in
  let st := match recordingTimerRef st with
            | Some h => with_recordingTimerRef None (clearInterval h st)
            | None => st
            end in
  commit before true st.

(** [addNoteToRecording(note, octave)], with [Date.now() = now]. *)
Definition addNoteToRecording (n : string) (o : Z) (now : Z) (st : State) : State :=
  match startTimeRef st with
  | Some start =>
      if isRecording st && truthy (startTimeRef st) then
        let newNote := mkNote n o (now - start) in
        let updatedNotes := recordedNotes st ++ [newNote] in
        let g := match global st with
                 | Some g => mkGlobal (g_isRecording g) updatedNotes
                               (g_startTime g) (g_metronomeEnabled g) (g_tempo g)
                 | None => mkGlobal false updatedNotes None false 0
                 end in
        commit st true
          (with_global (Some g)
             (with_recording (isRecording st) updatedNotes (startTimeRef st)
                (recordingTime st) st))
      else st
  | None => st
  end.

(** [handleNoteAdded]: listener of ['piano:add-note']. *)
Definition handleNoteAdded (newNote : Note) (st : State) : State :=
  if isRecording st && truthy (startTimeRef st)
  then commit st true
         (with_recording (isRecording st) (recordedNotes st ++ [newNote])
            (startTimeRef st) (recordingTime st) st)
  else st.

(** [recordNoteIfRecording(note)] of the soundboard, with
    [Date.now() = now]: builds the entry from the soundboard's own start
    timestamp and octave and sends it to RecordingControls. *)
Definition recordNoteIfRecording (n : string) (now : Z) (st : State) : State :=
  match sb_recordingStartTimeRef st with
  | Some start =>
      if sb_isRecording st && truthy (sb_recordingStartTimeRef st) then
        let recordedNote := mkNote n (sb_octave st) (now - start) in
        let st := with_soundboard (sb_isRecording st)
                    (sb_recordedSequence st ++ [recordedNote])
                    (sb_recordingStartTimeRef st) st in
        handleNoteAdded recordedNote st
      else st
  | None => st
  end.

(** The recording timer's callback: refresh the elapsed-time display. *)
Definition recordingTick (now : Z) (st : State) : State :=
  match startTimeRef st with
  | Some start =>
      if truthy (startTimeRef st)
      then with_recording (isRecording st) (recordedNotes st)
             (startTimeRef st) (now - start) st
      else st
  | None => st
  end.

(** ** Facts *)

(** The effects change the global copy and the host's timers only. *)
Lemma commit_fields before notes st :
  let st' := commit before notes st in
  audioContext st' = audioContext st /\
  isRecording st' = isRecording st /\
  recordedNotes st' = recordedNotes st /\
  startTimeRef st' = startTimeRef st /\
  tempo st' = tempo st /\
  metronomeEnabled st' = metronomeEnabled st /\
  isMetronomePlaying st' = isMetronomePlaying st /\
  metronomeIntervalRef st' = metronomeIntervalRef st /\
  recordingTime st' = recordingTime st /\
  recordingTimerRef st' = recordingTimerRef st /\
  sb_octave st' = sb_octave st /\
  sb_isRecording st' = sb_isRecording st /\
  sb_recordedSequence st' = sb_recordedSequence st /\
  sb_recordingStartTimeRef st' = sb_recordingStartTimeRef st /\
  next_handle st' = next_handle st /\
  completed st' = completed st.
Proof.
  destruct st as [audio rec buf start tmp enabled playing mref rtime rref
                    oct sbrec sbseq sbstart glob tms nh done].
  unfold commit, cleanup, sync_global, clearInterval. simpl.
  destruct (negb (Bool.eqb (isRecording before) rec)); simpl;
    [destruct (isRecording before); simpl;
     [|destruct mref; simpl; destruct rref; simpl]|destruct notes; simpl];
    repeat split; reflexivity.
Qed.

(** When [isRecording] did not change, only the global copy does. *)
Lemma commit_same before notes st :
  isRecording before = isRecording st ->
  timers (commit before notes st) = timers st.
Proof.
  intros H. unfold commit. rewrite H, Bool.eqb_reflx. simpl.
  now destruct notes.
Qed.

Lemma clearInterval_not_In h st : ~ In h (timers (clearInterval h st)).
Proof.
  unfold clearInterval. simpl. rewrite filter_In, negb_true_iff.
  intros [_ H]. now rewrite Nat.eqb_refl in H.
Qed.

Lemma clearInterval_In h k st :
  In k (timers (clearInterval h st)) <-> In k (timers st) /\ k <> h.
Proof.
  unfold clearInterval. simpl. rewrite filter_In, negb_true_iff, Nat.eqb_neq.
  reflexivity.
Qed.

Lemma startRecording_buffer now st :
  isRecording (startRecording now st) = true /\
  startTimeRef (startRecording now st) = Some now /\
  recordedNotes (startRecording now st) = [] /\
  sb_isRecording (startRecording now st) = true /\
  sb_recordingStartTimeRef (startRecording now st) = Some now /\
  completed (startRecording now st) = completed st.
Proof.
  unfold startRecording. cbv zeta.
  destruct (setInterval _) as [h st1] eqn:E.
  match goal with |- context [commit st true ?x] => set (s := x) end.
  destruct (commit_fields st true s)
    as (_ & -> & -> & -> & _ & _ & _ & _ & _ & _ & _ & -> & _ & -> & _ & ->).
  unfold setInterval in E. injection E as <- <-.
  unfold s, startMetronome. simpl.
  destruct (metronomeEnabled st && negb (isMetronomePlaying st)); simpl;
    [destruct (negb (audioContext st)); simpl|]; tauto.
Qed.



(** With a start timestamp of [0] the truthiness test fails and the
    notification is dropped. *)
Lemma addNoteToRecording_start0 n o now st :
  startTimeRef st = Some 0 -> addNoteToRecording n o now st = st.
Proof.
  intros Hs. unfold addNoteToRecording. rewrite Hs. simpl.
  now rewrite andb_false_r.
Qed.

Lemma addNoteToRecording_idle n o now st :
  isRecording st = false -> addNoteToRecording n o now st = st.
Proof.
  intros Hr. unfold addNoteToRecording. rewrite Hr.
  now destruct (startTimeRef st).
Qed.

(** What [handleNoteAdded] does to a recorder that is recording since a
    non-zero time: one more entry, and nothing else that the recording
    reads. *)
Lemma handleNoteAdded_appends x start st :
  isRecording st = true -> startTimeRef st = Some start -> start <> 0 ->
  let st' := handleNoteAdded x st in
  recordedNotes st' = recordedNotes st ++ [x] /\
  isRecording st' = true /\ startTimeRef st' = Some start /\
  sb_isRecording st' = sb_isRecording st /\
  sb_recordingStartTimeRef st' = sb_recordingStartTimeRef st /\
  sb_recordedSequence st' = sb_recordedSequence st /\
  sb_octave st' = sb_octave st /\
  completed st' = completed st.
Proof.
  intros Hr Hs Hz. unfold handleNoteAdded. rewrite Hs, Hr. simpl.
  destruct (Z.eqb_spec start 0) as [E|_]; [contradiction|]. simpl.
  match goal with |- context [commit st true ?x] => set (s := x) end.
  destruct (commit_fields st true s)
    as (_ & -> & -> & -> & _ & _ & _ & _ & _ & _ & -> & -> & -> & -> & _ & ->).
  unfold s. simpl. tauto.
Qed.

Lemma recordNoteIfRecording_appends n now start st :
  isRecording st = true -> startTimeRef st = Some start ->
  sb_isRecording st = true -> sb_recordingStartTimeRef st = Some start ->
  start <> 0 ->
  recordedNotes (recordNoteIfRecording n now st)
  = recordedNotes st ++ [mkNote n (sb_octave st) (now - start)].
Proof.
  intros Hr Hs Hr' Hs' Hz. unfold recordNoteIfRecording.
  rewrite Hs', Hr'. simpl.
  destruct (Z.eqb_spec start 0) as [E|_]; [contradiction|]. simpl.
  match goal with |- context [handleNoteAdded ?x ?y] => set (s := y) end.
  assert (Hr1 : isRecording s = true) by exact Hr.
  assert (Hs1 : startTimeRef s = Some start) by exact Hs.
  now destruct (handleNoteAdded_appends
                  (mkNote n (sb_octave st) (now - start)) start s Hr1 Hs1 Hz)
    as (-> & _).
Qed.

Lemma stopRecording_delivers st :
  completed (stopRecording st) = completed st ++ [recordedNotes st] /\
  recordedNotes (stopRecording st) = recordedNotes st /\
  isRecording (stopRecording st) = false.
Proof.
  unfold stopRecording. cbv zeta.
  match goal with |- context [commit st false ?x] => set (s := x) end.
  destruct (commit_fields st false s)
    as (_ & -> & -> & _ & _ & _ & _ & _ & _ & _ & _ & _ & _ & _ & _ & ->).
  unfold s, stopMetronome. simpl.
  destruct (global st); simpl;
    destruct (recordingTimerRef st); simpl;
    destruct (isMetronomePlaying st && negb (metronomeEnabled st)); simpl;
    try destruct (metronomeIntervalRef st); simpl; tauto.
Qed.

End Recorder.

(* ===================================================================== *)
(** * MemStorage and the routes that change it *)
(* ===================================================================== *)

Module Storage.

Local Open Scope Z_scope.

(** ** Entities (shared/schema.ts); [Date] values are timestamps *)

Record User := mkUser {
  u_id : Z;
  u_username : string;
  u_password : string;
  u_createdAt : Z
}.

Record SoundPack := mkSoundPack {
  sp_id : Z;
  sp_name : string;
  sp_description : option string;
  sp_userId : Z;
  sp_price : Z;
  sp_isPublic : bool;
  sp_downloads : Z;
  sp_rating : Z;
  sp_imageUrl : option string;
  sp_createdAt : Z;
  sp_updatedAt : Z
}.

Record Envelope := mkEnvelope {
  e_attack : Q;
  e_decay : Q;
  e_sustain : Q;
  e_release : Q
}.

Record Sound := mkSound {
  s_id : Z;
  s_packId : Z;
  s_name : string;
  s_note : string;
  s_octave : Z;
  s_soundFile : option string;
  s_waveform : string;
  s_envelope : Envelope;
  s_createdAt : Z
}.

Record Review := mkReview {
  r_id : Z;
  r_packId : Z;
  r_userId : Z;
  r_rating : Z;
  r_comment : option string;
  r_createdAt : Z
}.

Record Purchase := mkPurchase {
  p_id : Z;
  p_userId : Z;
  p_packId : Z;
  p_price : Z;
  p_createdAt : Z
}.

(** Insert types: optional fields are [option]s ([None] = undefined). *)
Record InsertUser := mkInsertUser {
  iu_username : string;
  iu_password : string
}.

Record InsertSoundPack := mkInsertSoundPack {
  isp_name : string;
  isp_description : option string;
  isp_userId : Z;
  isp_price : option Z;
  isp_isPublic : option bool;
  isp_imageUrl : option string
}.

Record InsertSound := mkInsertSound {
  is_packId : Z;
  is_name : string;
  is_note : string;
  is_octave : option Z;
  is_waveform : option string;
  is_envelope : option Envelope;
  is_soundFile : option string
}.

Record InsertReview := mkInsertReview {
  ir_packId : Z;
  ir_userId : Z;
  ir_rating : Z;
  ir_comment : option string
}.

Record InsertPurchase := mkInsertPurchase {
  ip_userId : Z;
  ip_packId : Z;
  ip_price : Z
}.

(** [Partial<SoundPack>] and [Partial<Sound>]: a field is present or
    not, and a field that is present holds a value of its declared type
    (the PATCH routes pass the request body on as it is). *)
Record SoundPackUpdates := mkSoundPackUpdates {
  up_id : option Z;
  up_name : option string;
  up_description : option (option string);
  up_userId : option Z;
  up_price : option Z;
  up_isPublic : option bool;
  up_downloads : option Z;
  up_rating : option Z;
  up_imageUrl : option (option string);
  up_createdAt : option Z;
  up_updatedAt : option Z
}.

Record SoundUpdates := mkSoundUpdates {
  us_id : option Z;
  us_packId : option Z;
  us_name : option string;
  us_note : option string;
  us_octave : option Z;
  us_soundFile : option (option string);
  us_waveform : option string;
  us_envelope : option Envelope;
  us_createdAt : option Z
}.

Definition no_updates : SoundPackUpdates :=
  mkSoundPackUpdates None None None None None None None None None None None.

(** [{ downloads: d }] and [{ rating: r }]. *)
Definition only_downloads (d : Z) : SoundPackUpdates :=
  mkSoundPackUpdates None None None None None None (Some d) None None None None.

Definition only_rating (r : Z) : SoundPackUpdates :=
  mkSoundPackUpdates None None None None None None None (Some r) None None None.

(** ** The store *)

Record Store := mkStore {
  users : gmap Z User;
  soundPacks : gmap Z SoundPack;
  sounds : gmap Z Sound;
  reviews : gmap Z Review;
  purchases : gmap Z Purchase;
  userIdCounter : Z;
  soundPackIdCounter : Z;
  soundIdCounter : Z;
  reviewIdCounter : Z;
  purchaseIdCounter : Z
}.

(** [new MemStorage()] *)
Definition empty_store : Store := mkStore ∅ ∅ ∅ ∅ ∅ 1 1 1 1 1.

Definition with_users (m : gmap Z User) (c : Z) (s : Store) : Store :=
  mkStore m (soundPacks s) (sounds s) (reviews s) (purchases s)
    c (soundPackIdCounter s) (soundIdCounter s) (reviewIdCounter s)
    (purchaseIdCounter s).

Definition with_soundPacks (m : gmap Z SoundPack) (c : Z) (s : Store) : Store :=
  mkStore (users s) m (sounds s) (reviews s) (purchases s)
    (userIdCounter s) c (soundIdCounter s) (reviewIdCounter s)
    (purchaseIdCounter s).

Definition with_sounds (m : gmap Z Sound) (c : Z) (s : Store) : Store :=
  mkStore (users s) (soundPacks s) m (reviews s) (purchases s)
    (userIdCounter s) (soundPackIdCounter s) c (reviewIdCounter s)
    (purchaseIdCounter s).

Definition with_reviews (m : gmap Z Review) (c : Z) (s : Store) : Store :=
  mkStore (users s) (soundPacks s) (sounds s) m (purchases s)
    (userIdCounter s) (soundPackIdCounter s) (soundIdCounter s) c
    (purchaseIdCounter s).

Definition with_purchases (m : gmap Z Purchase) (c : Z) (s : Store) : Store :=
  mkStore (users s) (soundPacks s) (sounds s) (reviews s) m
    (userIdCounter s) (soundPackIdCounter s) (soundIdCounter s)
    (reviewIdCounter s) c.

(** [Array.from(map.values())].  A JavaScript [Map] lists its values in
    insertion order, a [gmap] in an order of its own; the methods below
    only filter, sum and delete over the result, which does not depend
    on the order. *)
Definition values {A} (m : gmap Z A) : list A := map snd (map_to_list m).

(** JavaScript [x || d] on strings and numbers. *)
Definition or_string (x : option string) : option string :=
  match x with
  | Some s => if String.eqb s "" then None else Some s
  | None => None
  end.

Definition or_number (x : option Z) (d : Z) : Z :=
  match x with
  | Some n => if n =? 0 then d else n
  | None => d
  end.

(** [Math.round(total / n)] for [n > 0]: the nearest integer, halves up. *)
Definition round_div (total n : Z) : Z := (2 * total + n) / (2 * n).

(** A number of the store is a double.  The integers up to 2^53 in
    magnitude are doubles; a larger integer is rounded to the nearest
    double, a multiple of the unit in the last place of its binade, ties
    going to the even multiple (the overflow to [Infinity] beyond 2^1024
    is left out). *)
Definition to_double (x : Z) : Z :=
  if Z.abs x <=? 2 ^ 53 then x
  else
    let ulp := 2 ^ (Z.log2 (Z.abs x) - 52) in
    let q := x / ulp in
    let r := x mod ulp in
    if 2 * r <? ulp then q * ulp
    else if ulp <? 2 * r then (q + 1) * ulp
    else if Z.even q then q * ulp else (q + 1) * ulp.

(** [a + b] on two integer-valued doubles: the sum, rounded. *)
Definition js_add (a b : Z) : Z := to_double (a + b).

(** ** User methods *)

Definition getUser (id : Z) (s : Store) : option User := users s !! id.

Definition createUser (ins : InsertUser) (now : Z) (s : Store) : User * Store :=
  let id := userIdCounter s in
  let user := mkUser id (iu_username ins) (iu_password ins) now in
  (user, with_users (<[id := user]> (users s)) (id + 1) s).

(** ** Sound pack methods *)

Definition getSoundPack (id : Z) (s : Store) : option SoundPack :=
  soundPacks s !! id.

Definition createSoundPack (ins : InsertSoundPack) (now : Z) (s : Store)
    : SoundPack * Store :=
  let id := soundPackIdCounter s in
  let soundPack :=
    mkSoundPack id (isp_name ins) (or_string (isp_description ins))
      (isp_userId ins) (or_number (isp_price ins) 0)
      (default true (isp_isPublic ins)) 0 0 (or_string (isp_imageUrl ins))
      now now in
  (soundPack, with_soundPacks (<[id := soundPack]> (soundPacks s)) (id + 1) s).

(** [{ ...soundPack, ...updates, updatedAt: new Date(), id }] *)
Definition apply_pack_updates (id : Z) (p : SoundPack) (u : SoundPackUpdates)
    (now : Z) : SoundPack :=
  mkSoundPack id
    (default (sp_name p) (up_name u))
    (default (sp_description p) (up_description u))
    (default (sp_userId p) (up_userId u))
    (default (sp_price p) (up_price u))
    (default (sp_isPublic p) (up_isPublic u))
    (default (sp_downloads p) (up_downloads u))
    (default (sp_rating p) (up_rating u))
    (default (sp_imageUrl p) (up_imageUrl u))
    (default (sp_createdAt p) (up_createdAt u))
    now.

Definition updateSoundPack (id : Z) (u : SoundPackUpdates) (now : Z) (s : Store)
    : option SoundPack * Store :=
  match getSoundPack id s with
  | None => (None, s)
  | Some soundPack =>
      let updatedPack := apply_pack_updates id soundPack u now in
      (Some updatedPack,
       with_soundPacks (<[id := updatedPack]> (soundPacks s))
         (soundPackIdCounter s) s)
  end.

(** ** Sound methods *)

Definition getSound (id : Z) (s : Store) : option Sound := sounds s !! id.

Definition getSoundsByPackId (packId : Z) (s : Store) : list Sound :=
  List.filter (fun sound => s_packId sound =? packId) (values (sounds s)).

Definition default_envelope : Envelope :=
  mkEnvelope (1 # 10) (2 # 10) (7 # 10) (5 # 10).

Definition createSound (ins : InsertSound) (now : Z) (s : Store) : Sound * Store :=
  let id := soundIdCounter s in
  let sound :=
    mkSound id (is_packId ins) (is_name ins) (is_note ins)
      (or_number (is_octave ins) 4) (or_string (is_soundFile ins))
      (default "sine"%string (or_string (is_waveform ins)))
      (default default_envelope (is_envelope ins)) now in
  (sound, with_sounds (<[id := sound]> (sounds s)) (id + 1) s).

(** [{ ...sound, ...updates, id }] *)
Definition apply_sound_updates (id : Z) (x : Sound) (u : SoundUpdates) : Sound :=
  mkSound id
    (default (s_packId x) (us_packId u))
    (default (s_name x) (us_name u))
    (default (s_note x) (us_note u))
    (default (s_octave x) (us_octave u))
    (default (s_soundFile x) (us_soundFile u))
    (default (s_waveform x) (us_waveform u))
    (default (s_envelope x) (us_envelope u))
    (default (s_createdAt x) (us_createdAt u)).

Definition updateSound (id : Z) (u : SoundUpdates) (s : Store)
    : option Sound * Store :=
  match getSound id s with
  | None => (None, s)
  | Some sound =>
      let updatedSound := apply_sound_updates id sound u in
      (Some updatedSound,
       with_sounds (<[id := updatedSound]> (sounds s)) (soundIdCounter s) s)
  end.

(** [Map.prototype.delete] returns whether the key was present. *)
Definition deleteSound (id : Z) (s : Store) : bool * Store :=
  (bool_decide (is_Some (sounds s !! id)),
   with_sounds (delete id (sounds s)) (soundIdCounter s) s).

(** [deleteSoundPack]: the pack's sounds go first, then the pack.
    Reviews and purchases are not touched. *)
Definition deleteSoundPack (id : Z) (s : Store) : bool * Store :=
  let packSounds := getSoundsByPackId id s in
  let s := fold_left (fun s sound => snd (deleteSound (s_id sound) s))
             packSounds s in
  (bool_decide (is_Some (soundPacks s !! id)),
   with_soundPacks (delete id (soundPacks s)) (soundPackIdCounter s) s).

(** ** Review methods *)

Definition getReviewsByPackId (packId : Z) (s : Store) : list Review :=
  List.filter (fun review => r_packId review =? packId) (values (reviews s)).

Definition createReview (ins : InsertReview) (now : Z) (s : Store)
    : Review * Store :=
  let id := reviewIdCounter s in
  let review := mkReview id (ir_packId ins) (ir_userId ins) (ir_rating ins)
                  (ir_comment ins) now in
  let s := with_reviews (<[id := review]> (reviews s)) (id + 1) s in
  let packReviews := getReviewsByPackId (ir_packId ins) s in
  let totalRating := fold_left (fun sum r => sum + r_rating r) packReviews 0 in
  let averageRating := round_div totalRating (Z.of_nat (length packReviews)) in
  (review, snd (updateSoundPack (ir_packId ins) (only_rating averageRating) now s)).

(** ** Purchase methods *)

Definition getUserPurchases (userId : Z) (s : Store) : list Purchase :=
  List.filter (fun purchase => p_userId purchase =? userId) (values (purchases s)).

Definition hasPurchased (userId packId : Z) (s : Store) : bool :=
  existsb (fun purchase => p_packId purchase =? packId)
    (getUserPurchases userId s).

(** [createPurchase]: store the purchase, then bump the pack's
    [downloads] when the pack exists; [soundPack.downloads + 1] is an
    addition of doubles.  Both [new Date()] read [now]. *)
Definition createPurchase (ins : InsertPurchase) (now : Z) (s : Store)
    : Purchase * Store :=
  let id := purchaseIdCounter s in
  let purchase := mkPurchase id (ip_userId ins) (ip_packId ins) (ip_price ins) now in
  let s := with_purchases (<[id := purchase]> (purchases s)) (id + 1) s in
  match getSoundPack (ip_packId ins) s with
  | Some soundPack =>
      (purchase,
       snd (updateSoundPack (ip_packId ins)
              (only_downloads (js_add (sp_downloads soundPack) 1)) now s))
  | None => (purchase, s)
  end.

(** ** Routes that change the store *)

(** Route and body parameters arrive already parsed; an identifier that
    [parseInt] could not read is [None] (NaN).  [PostSoundPack] and
    [PostReview] carry a body that has passed the route's validation;
    [receive] below has the validation itself. *)
Inductive Request :=
| PostSoundPack (ins : InsertSoundPack)
| PatchSoundPack (id : Z) (u : SoundPackUpdates)
| DeleteSoundPack (id : Z)
| PostSound (ins : InsertSound)
| PatchSound (id : Z) (u : SoundUpdates)
| DeleteSound (id : Z)
| PostReview (ins : InsertReview)
| PostPurchase (userId packId : option Z).

(** The HTTP status of the response. *)
Definition handle (r : Request) (now : Z) (s : Store) : Z * Store :=
  match r with
  | PostSoundPack ins => (201, snd (createSoundPack ins now s))
  | PatchSoundPack id u =>
      match getSoundPack id s with
      | None => (404, s)
      | Some _ => (200, snd (updateSoundPack id u now s))
      end
  | DeleteSoundPack id =>
      let '(success, s') := deleteSoundPack id s in
      if success then (200, s') else (404, s')
  | PostSound ins =>
      match getSoundPack (is_packId ins) s with
      | None => (404, s)
      | Some _ => (201, snd (createSound ins now s))
      end
  | PatchSound id u =>
      match getSound id s with
      | None => (404, s)
      | Some _ => (200, snd (updateSound id u s))
      end
  | DeleteSound id =>
      let '(success, s') := deleteSound id s in
      if success then (200, s') else (404, s')
  | PostReview ins =>
      match getSoundPack (ir_packId ins) s with
      | None => (404, s)
      | Some _ => (201, snd (createReview ins now s))
      end
  | PostPurchase (Some userId) (Some packId) =>
      if hasPurchased userId packId s then (400, s)
      else
        match getSoundPack packId s with
        | None => (404, s)
        | Some soundPack =>
            (201, snd (createPurchase
                         (mkInsertPurchase userId packId (sp_price soundPack))
                         now s))
        end
  | PostPurchase _ _ => (400, s)
  end.

(** A run of requests, each with the time at which it is served. *)
Definition serve (rs : list (Request * Z)) (s : Store) : Store :=
  fold_left (fun s r => snd (handle (fst r) (snd r) s)) rs s.

(** ** The referential invariant of the data model *)

Definition purchases_reference_packs (s : Store) : Prop :=
  forall k p, purchases s !! k = Some p -> is_Some (soundPacks s !! p_packId p).


(** ** Reachable stores *)

(** The methods of [MemStorage] that change the store. *)
Inductive Call :=
| CreateUser (ins : InsertUser)
| CreateSoundPack (ins : InsertSoundPack)
| UpdateSoundPack (id : Z) (u : SoundPackUpdates)
| DeleteSoundPackCall (id : Z)
| CreateSound (ins : InsertSound)
| UpdateSound (id : Z) (u : SoundUpdates)
| DeleteSoundCall (id : Z)
| CreateReview (ins : InsertReview)
| CreatePurchase (ins : InsertPurchase).

Definition exec (c : Call) (now : Z) (s : Store) : Store :=
  match c with
  | CreateUser ins => snd (createUser ins now s)
  | CreateSoundPack ins => snd (createSoundPack ins now s)
  | UpdateSoundPack id u => snd (updateSoundPack id u now s)
  | DeleteSoundPackCall id => snd (deleteSoundPack id s)
  | CreateSound ins => snd (createSound ins now s)
  | UpdateSound id u => snd (updateSound id u s)
  | DeleteSoundCall id => snd (deleteSound id s)
  | CreateReview ins => snd (createReview ins now s)
  | CreatePurchase ins => snd (createPurchase ins now s)
  end.

(** Stores obtained from [new MemStorage()] by method calls. *)
Inductive reachable : Store -> Prop :=
| reach_empty : reachable empty_store
| reach_call c now s : reachable s -> reachable (exec c now s).

(** ** Facts: what each method touches *)

Lemma updateSoundPack_frame id u now s :
  let s' := snd (updateSoundPack id u now s) in
  users s' = users s /\ sounds s' = sounds s /\ reviews s' = reviews s /\
  purchases s' = purchases s /\
  (forall k, k <> id -> soundPacks s' !! k = soundPacks s !! k) /\
  soundPacks s' !! id = (fun p => apply_pack_updates id p u now) <$> soundPacks s !! id.
Proof.
  unfold updateSoundPack, getSoundPack.
  destruct (soundPacks s !! id) as [p|] eqn:E; simpl.
  - repeat split; try reflexivity.
    + intros k Hk. now rewrite lookup_insert_ne.
    + now rewrite lookup_insert_eq.
  - repeat split; try reflexivity. now rewrite E.
Qed.

Lemma updateSoundPack_keeps_keys id u now s k :
  is_Some (soundPacks (snd (updateSoundPack id u now s)) !! k)
  <-> is_Some (soundPacks s !! k).
Proof.
  destruct (updateSoundPack_frame id u now s) as (_ & _ & _ & _ & Hne & Heq).
  destruct (decide (k = id)) as [->|Hk].
  - rewrite Heq. destruct (soundPacks s !! id); simpl; split; intros [x Hx];
      try discriminate; eauto.
  - now rewrite Hne.
Qed.

Definition delete_sounds (l : list Sound) (s : Store) : Store :=
  fold_left (fun s sound => snd (deleteSound (s_id sound) s)) l s.



Lemma createReview_frame ins now s :
  let s' := snd (createReview ins now s) in
  users s' = users s /\ sounds s' = sounds s /\ purchases s' = purchases s /\
  (forall k, is_Some (soundPacks s' !! k) <-> is_Some (soundPacks s !! k)) /\
  (forall k, k <> ir_packId ins -> soundPacks s' !! k = soundPacks s !! k).
Proof.
  unfold createReview. cbv zeta.
  set (s1 := with_reviews _ _ s).
  set (avg := round_div _ _). cbn [snd].
  destruct (updateSoundPack_frame (ir_packId ins) (only_rating avg) now s1)
    as (-> & -> & _ & -> & Hne & _).
  repeat split; try reflexivity.
  - apply (updateSoundPack_keeps_keys (ir_packId ins) (only_rating avg) now s1 k).
  - apply (updateSoundPack_keeps_keys (ir_packId ins) (only_rating avg) now s1 k).
  - intros k Hk. now rewrite Hne.
Qed.


Lemma js_add_lost : js_add (2 ^ 53) 1 = 2 ^ 53.
Proof. vm_compute. reflexivity. Qed.

(** [createPurchase] spelled out: the purchase is stored under the next
    identifier and the pack, when there is one, is rewritten with its
    [downloads] plus one (as doubles add) and the current time as
    [updatedAt]. *)
Lemma createPurchase_frame ins now s :
  let s' := snd (createPurchase ins now s) in
  users s' = users s /\ sounds s' = sounds s /\ reviews s' = reviews s /\
  purchases s' =
    <[purchaseIdCounter s :=
        mkPurchase (purchaseIdCounter s) (ip_userId ins) (ip_packId ins)
          (ip_price ins) now]> (purchases s) /\
  (forall k, k <> ip_packId ins -> soundPacks s' !! k = soundPacks s !! k) /\
  soundPacks s' !! ip_packId ins =
    (fun p => apply_pack_updates (ip_packId ins) p
                (only_downloads (js_add (sp_downloads p) 1)) now)
    <$> soundPacks s !! ip_packId ins.
Proof.
  unfold createPurchase. cbv zeta.
  set (s1 := with_purchases _ _ s).
  change (getSoundPack (ip_packId ins) s1) with (soundPacks s !! ip_packId ins).
  destruct (soundPacks s !! ip_packId ins) as [p|] eqn:E; cbn [snd].
  - destruct (updateSoundPack_frame (ip_packId ins)
                (only_downloads (js_add (sp_downloads p) 1)) now s1)
      as (-> & -> & -> & -> & Hne & Heq).
    repeat split; try reflexivity.
    + intros k Hk. now rewrite Hne.
    + rewrite Heq. simpl. now rewrite E.
  - simpl. repeat split; try reflexivity. now rewrite E.
Qed.

(** ** Facts: stored identifiers *)



(** Every route runs at most one method, so the routes stay within the
    reachable stores. *)
Lemma handle_reachable r now s : reachable s -> reachable (snd (handle r now s)).
Proof.
  intros Hs. destruct r; cbn [handle].
  - apply (reach_call (CreateSoundPack ins) now s Hs).
  - destruct (getSoundPack id s); [|exact Hs].
    apply (reach_call (UpdateSoundPack id u) now s Hs).
  - destruct (deleteSoundPack id s) as [b s'] eqn:E.
    assert (s' = exec (DeleteSoundPackCall id) now s) as ->
      by (cbn [exec]; now rewrite E).
    destruct b; apply (reach_call _ _ _ Hs).
  - destruct (getSoundPack (is_packId ins) s); [|exact Hs].
    apply (reach_call (CreateSound ins) now s Hs).
  - destruct (getSound id s); [|exact Hs].
    apply (reach_call (UpdateSound id u) now s Hs).
  - destruct (deleteSound id s) as [b s'] eqn:E.
    assert (s' = exec (DeleteSoundCall id) now s) as ->
      by (cbn [exec]; now rewrite E).
    destruct b; apply (reach_call _ _ _ Hs).
  - destruct (getSoundPack (ir_packId ins) s); [|exact Hs].
    apply (reach_call (CreateReview ins) now s Hs).
  - destruct userId as [userId|]; [|exact Hs].
    destruct packId as [packId|]; [|exact Hs].
    destruct (hasPurchased userId packId s); [exact Hs|].
    destruct (getSoundPack packId s) as [p|]; [|exact Hs].
    apply (reach_call (CreatePurchase _) now s Hs).
Qed.

Lemma serve_reachable rs s : reachable s -> reachable (serve rs s).
Proof.
  revert s. induction rs as [|r rs IH]; intros s Hs; [exact Hs|].
  simpl. apply IH. now apply handle_reachable.
Qed.

(** ** Facts: the referential invariant *)

(** Every route except the deletion of a pack keeps the invariant. *)
Lemma handle_keeps_references r now s :
  (forall id, r <> DeleteSoundPack id) ->
  purchases_reference_packs s ->
  purchases_reference_packs (snd (handle r now s)).
Proof.
  intros Hr Hs. destruct r; cbn [handle].
  - intros k p Hp. simpl in Hp. apply Hs in Hp.
    simpl. rewrite lookup_insert_is_Some. destruct Hp as [x Hx].
    destruct (decide (soundPackIdCounter s = p_packId p)); [now left|right].
    split; [assumption|eauto].
  - destruct (getSoundPack id s); [|exact Hs].
    intros k p Hp. cbn [snd] in *.
    destruct (updateSoundPack_frame id u now s) as (_ & _ & _ & Hpu & _).
    rewrite Hpu in Hp. apply updateSoundPack_keeps_keys. now apply Hs in Hp.
  - now destruct (Hr id).
  - destruct (getSoundPack (is_packId ins) s); exact Hs.
  - destruct (getSound id s) eqn:E; [|exact Hs]. unfold updateSound.
    rewrite E. exact Hs.
  - destruct (deleteSound id s) as [b s'] eqn:E.
    assert (purchases s' = purchases s /\ soundPacks s' = soundPacks s) as [E1 E2]
      by (unfold deleteSound in E; injection E as _ <-; split; reflexivity).
    assert (Hs' : purchases_reference_packs s')
      by (unfold purchases_reference_packs; rewrite E1, E2; exact Hs).
    now destruct b.
  - destruct (getSoundPack (ir_packId ins) s); [|exact Hs].
    intros k p Hp. cbn [snd] in *.
    destruct (createReview_frame ins now s) as (_ & _ & Hpu & Hkeys & _).
    rewrite Hpu in Hp. apply Hkeys. now apply Hs in Hp.
  - destruct userId as [userId|]; [|exact Hs].
    destruct packId as [packId|]; [|exact Hs].
    destruct (hasPurchased userId packId s); [exact Hs|].
    destruct (getSoundPack packId s) as [sp|] eqn:E; [|exact Hs].
    set (ins := mkInsertPurchase userId packId (sp_price sp)).
    intros k p Hp. cbn [snd] in *.
    destruct (createPurchase_frame ins now s) as (_ & _ & _ & Hpu & Hne & Heq).
    cbn [ip_packId ip_userId ip_price ins] in Hpu, Hne, Heq. rewrite Hpu in Hp.
    assert (Hkeys : forall j, is_Some (soundPacks s !! j) ->
                      is_Some (soundPacks (snd (createPurchase ins now s)) !! j)).
    { intros j Hj. destruct (decide (j = packId)) as [->|Hjk].
      - rewrite Heq. unfold getSoundPack in E. rewrite E. simpl. eauto.
      - now rewrite Hne. }
    apply Hkeys.
    apply lookup_insert_Some in Hp. destruct Hp as [[_ <-]|[_ Hp]].
    + simpl. unfold getSoundPack in E. rewrite E. eauto.
    + now apply Hs in Hp.
Qed.

(** ** Requests as they arrive *)

(** A field of a request body: absent, present with a value that is not
    of the field's type, or given. *)
Inductive Sent (A : Type) :=
| Absent
| Mistyped
| Given (a : A).

Arguments Absent {A}.
Arguments Mistyped {A}.
Arguments Given {A} a.

(** What [POST /soundpacks] reads from the form: [name] and
    [description] as sent, [userId] and [price] through [parseInt]
    ([None]: NaN), [isPublic === 'true'], and the URL of the uploaded
    image when a file came with the form. *)
Record SoundPackForm := mkSoundPackForm {
  f_name : Sent string;
  f_description : Sent string;
  f_userId : option Z;
  f_price : option Z;
  f_isPublic : bool;
  f_imageUrl : option string
}.

(** The JSON body of [POST /soundpacks/:packId/reviews]. *)
Record ReviewBody := mkReviewBody {
  b_packId : Sent Z;
  b_userId : Sent Z;
  b_rating : Sent Z;
  b_comment : Sent string
}.

(** Requests with the bodies as they arrive, before validation. *)
Inductive Incoming :=
| InPostSoundPack (form : SoundPackForm)
| InPatchSoundPack (id : Z) (u : SoundPackUpdates)
| InDeleteSoundPack (id : Z)
| InPostSound (ins : InsertSound)
| InPatchSound (id : Z) (u : SoundUpdates)
| InDeleteSound (id : Z)
| InPostReview (packId : option Z) (body : ReviewBody)
| InPostPurchase (userId packId : option Z).

Section Validation.

(** [insertSoundPackSchema] and [insertReviewSchema] are generated from
    the tables by drizzle-zod.  They refuse a required field that is
    absent, a field that is not of its type, and NaN; what else they
    check of the values (whole numbers, column ranges) is the library's
    and is kept as a parameter. *)
Variable insertSoundPackSchema : InsertSoundPack -> bool.
Variable insertReviewSchema : InsertReview -> bool.

(** [formData] of [POST /soundpacks] and [insertSoundPackSchema.parse];
    the image URL is added after validation. *)
Definition parse_pack (form : SoundPackForm) : option InsertSoundPack :=
  match f_name form, f_description form, f_userId form, f_price form with
  | Given name, (Absent | Given _) as description, Some userId, Some price =>
      let description :=
        match description with Given d => d | _ => ""%string end in
      let formData :=
        mkInsertSoundPack name (Some description) userId (Some price)
          (Some (f_isPublic form)) None in
      if insertSoundPackSchema formData
      then Some (mkInsertSoundPack name (Some description) userId (Some price)
                   (Some (f_isPublic form))
                   (Some (default ""%string (f_imageUrl form))))
      else None
  | _, _, _, _ => None
  end.

(** [validateRequest(insertReviewSchema)] *)
Definition parse_review (body : ReviewBody) : option InsertReview :=
  match b_packId body, b_userId body, b_rating body, b_comment body with
  | Given packId, Given userId, Given rating, (Absent | Given _) as comment =>
      let review :=
        mkInsertReview packId userId rating
          (match comment with Given c => Some c | _ => None end) in
      if insertReviewSchema review then Some review else None
  | _, _, _, _ => None
  end.

(** The routes, validation included: a body that does not pass is
    answered with 400 before the store is looked at. *)
Definition receive (r : Incoming) (now : Z) (s : Store) : Z * Store :=
  match r with
  | InPostSoundPack form =>
      match parse_pack form with
      | None => (400, s)
      | Some ins => handle (PostSoundPack ins) now s
      end
  | InPatchSoundPack id u => handle (PatchSoundPack id u) now s
  | InDeleteSoundPack id => handle (DeleteSoundPack id) now s
  | InPostSound ins => handle (PostSound ins) now s
  | InPatchSound id u => handle (PatchSound id u) now s
  | InDeleteSound id => handle (DeleteSound id) now s
  | InPostReview packId body =>
      match parse_review body with
      | None => (400, s)
      | Some review =>
          match packId with
          | None => (404, s)
          | Some packId =>
              handle (PostReview (mkInsertReview packId (ir_userId review)
                                    (ir_rating review) (ir_comment review)))
                now s
          end
      end
  | InPostPurchase userId packId => handle (PostPurchase userId packId) now s
  end.

(** A form without a name, a user or a price is refused. *)
Lemma parse_pack_requires form ins :
  parse_pack form = Some ins ->
  f_name form = Given (isp_name ins) /\
  f_userId form = Some (isp_userId ins) /\
  f_price form = isp_price ins.
Proof.
  unfold parse_pack.
  destruct (f_name form) as [| |name]; try discriminate.
  destruct (f_description form) as [| |d]; try discriminate;
    destruct (f_userId form) as [userId|]; try discriminate;
    destruct (f_price form) as [price|]; try discriminate;
    destruct (insertSoundPackSchema _); try discriminate;
    intros [= <-]; repeat split.
Qed.

End Validation.

(** Apart from the deletion of a pack, a route that answers 400 or 404
    has not changed the store. *)
Lemma handle_refused r now s :
  (forall id, r <> DeleteSoundPack id) ->
  400 <= fst (handle r now s) -> snd (handle r now s) = s.
Proof.
  intros Hr Hst. destruct r; cbn [handle] in *.
  - simpl in Hst. lia.
  - destruct (getSoundPack id s); [simpl in Hst; lia|reflexivity].
  - now destruct (Hr id).
  - destruct (getSoundPack _ s); [simpl in Hst; lia|reflexivity].
  - destruct (getSound id s); [simpl in Hst; lia|reflexivity].
  - unfold deleteSound in *.
    case_bool_decide as Hsome; [simpl in Hst; lia|].
    simpl. assert (Hn : sounds s !! id = None).
    { destruct (sounds s !! id) eqn:E; [|reflexivity].
      exfalso. apply Hsome. eauto. }
    rewrite (delete_id _ _ Hn). now destruct s.
  - destruct (getSoundPack _ s); [simpl in Hst; lia|reflexivity].
  - destruct userId as [userId|]; [|reflexivity].
    destruct packId as [packId|]; [|reflexivity].
    destruct (hasPurchased userId packId s); [reflexivity|].
    destruct (getSoundPack packId s); [simpl in Hst; lia|reflexivity].
Qed.

End Storage.

(* ===================================================================== *)
(** * The key grid (lib/piano.ts, PianoGrid) and the sequencer's rows *)
(* ===================================================================== *)

Module Piano.

Import Frequency.
Local Open Scope nat_scope.

(** [NOTE_COLORS] of lib/piano.ts (repeated as [colors] in PianoGrid). *)
Definition NOTE_COLORS : list string :=
  [ "bg-red-400"; "bg-red-500"; "bg-orange-400"; "bg-orange-500";
    "bg-amber-400"; "bg-amber-500"; "bg-yellow-400"; "bg-yellow-500";
    "bg-green-400"; "bg-green-500"; "bg-emerald-400"; "bg-emerald-500";
    "bg-teal-400"; "bg-teal-500"; "bg-cyan-400"; "bg-cyan-500" ]%string.

(** One key of the grid.  An array read out of range would give
    [undefined], hence the options. *)
Record GridNote := mkGridNote {
  gn_note : option string;
  gn_color : option string;
  gn_index : nat
}.

(** [generatePianoGridNotes(count)]: the loop pushes one key for each
    [i] from [0] to [count - 1]. *)
Definition generatePianoGridNotes (count : nat) : list GridNote :=
  (fun i =>
     let startNote := 0 in
     let noteIndex := (startNote + i) mod length NOTE_NAMES in
     let colorIndex := i mod length NOTE_COLORS in
     mkGridNote (NOTE_NAMES !! noteIndex) (NOTE_COLORS !! colorIndex) i)
  <$> seq 0 count.

(** [gridNotes] of PianoGrid: the same loop with 16 keys. *)
Definition gridNotes : list GridNote := generatePianoGridNotes 16.

(** ** Rows of the sequencer grid (SequencerGrid) *)

Local Open Scope Z_scope.

(** [NOTE_NAMES[k]] for an integer [k]. *)
Definition name_at (k : Z) : option string :=
  if k <? 0 then None else NOTE_NAMES !! Z.to_nat k.

(** [getRowNote(row)]; JavaScript [%] keeps the sign of the dividend. *)
Definition getRowNote (row : Z) : option string :=
  let noteIdx := Z.rem row (Z.of_nat (length NOTE_NAMES)) in
  name_at (Z.of_nat (length NOTE_NAMES) - 1 - noteIdx).

(** [getRowOctave(row)] *)
Definition getRowOctave (row : Z) : Z :=
  3 + row / Z.of_nat (length NOTE_NAMES).

(** [rowFromBottom] of the note blocks: the row a note is drawn in. *)
Definition rowFromBottom (note : string) (octave : Z) : Z :=
  let noteIdx := indexOf NOTE_NAMES note in
  let octaveDiff := octave - 3 in
  (Z.of_nat (length NOTE_NAMES) - 1 - noteIdx)
  + octaveDiff * Z.of_nat (length NOTE_NAMES).

(** ** Facts *)

Lemma name_lookup_chromatic (k : nat) (name : string) :
  NOTE_NAMES !! k = Some name -> chromatic name /\ indexOf NOTE_NAMES name = Z.of_nat k.
Proof.
  intros H. split.
  - apply list_elem_of_In. eapply list_elem_of_lookup_2, H.
  - do 12 (destruct k as [|k]; [injection H as <-; reflexivity|]).
    discriminate H.
Qed.

Lemma name_lookup_lt (k : nat) :
  (k < 12)%nat -> exists name, NOTE_NAMES !! k = Some name.
Proof.
  intros H. apply (lookup_lt_is_Some_2 NOTE_NAMES k). exact H.
Qed.

Lemma color_lookup_lt (k : nat) :
  (k < 16)%nat -> exists c, NOTE_COLORS !! k = Some c.
Proof.
  intros H. apply (lookup_lt_is_Some_2 NOTE_COLORS k). exact H.
Qed.

Lemma generate_lookup (count i : nat) :
  (i < count)%nat ->
  generatePianoGridNotes count !! i =
  Some (mkGridNote (NOTE_NAMES !! (i mod 12)%nat) (NOTE_COLORS !! (i mod 16)%nat) i).
Proof.
  intros H. unfold generatePianoGridNotes.
  rewrite list_lookup_fmap, lookup_seq_lt by exact H. reflexivity.
Qed.

Lemma generate_length (count : nat) :
  length (generatePianoGridNotes count) = count.
Proof. unfold generatePianoGridNotes. now rewrite length_fmap, length_seq. Qed.

End Piano.

(* ===================================================================== *)
(** * Editing the pattern (SequencerGrid: addNote, deleteNote) *)
(* ===================================================================== *)

Module Grid.

Import Frequency Sequencer.
Local Open Scope Q_scope.

(** [getBoundingClientRect()] of the grid element; [bottom] is
    [top + height]. *)
Record Rect := mkRect {
  rect_left : Q;
  rect_top : Q;
  rect_width : Q;
  rect_height : Q
}.

Definition rect_bottom (r : Rect) : Q := rect_top r + rect_height r.

(** [const gridColumns = totalBeats * (beatDivision / 4)] and
    [const gridRows = 12]. *)
Definition gridColumns (p : Props) (beatDivision : Q) : Q :=
  totalBeats p * (beatDivision / 4).

Definition gridRows : Q := 12.

(** A name read out of the range of [NOTE_NAMES] is [undefined] at run
    time; the field being typed [string], it is kept as the text
    JavaScript prints for it, which is not a chromatic name. *)
Definition name_text (o : option string) : string :=
  default "undefined"%string o.

(** The column and row of a click. *)
Definition click_col (rect : Rect) (p : Props) (beatDivision clientX : Q) : Z :=
  let x := clientX - rect_left rect in
  let cellWidth := rect_width rect / gridColumns p beatDivision in
  Qfloor (x / cellWidth).

Definition click_row (rect : Rect) (clientY : Q) : Z :=
  let y := rect_bottom rect - clientY in
  let cellHeight := rect_height rect / gridRows in
  Qfloor (y / cellHeight).

(** [addNote(event)] on the state pair ([notes], [selectedNote]).
    [grid] is [gridRef.current]; [newId] stands for the identifier built
    from [Date.now()] and [Math.random()]. *)
Definition addNote (grid : option Rect) (p : Props) (beatDivision : Q)
    (clientX clientY : Q) (newId : string)
    (st : list Note * option string) : list Note * option string :=
  match grid with
  | None => st
  | Some rect =>
      let col := click_col rect p beatDivision clientX in
      let row := click_row rect clientY in
      let startBeat := inject_Z col * (4 / beatDivision) in
      let newNote :=
        mkNote newId (name_text (Piano.getRowNote row)) (Piano.getRowOctave row)
          startBeat 1 (7 # 10) in
      (fst st ++ [newNote], Some newId)
  end.

(** [deleteNote(id)] *)
Definition deleteNote (i : string) (st : list Note * option string)
    : list Note * option string :=
  (List.filter (fun n => negb (String.eqb (id n) i)) (fst st),
   match snd st with
   | Some sel => if String.eqb sel i then None else Some sel
   | None => None
   end).

(** [clearPattern()], given the answer to [window.confirm]. *)
Definition clearPattern (confirmed : bool) (st : list Note * option string)
    : list Note * option string :=
  if confirmed then ([], None) else st.

(** ** Facts *)

Lemma Qfloor_range (q : Q) (n : Z) :
  0 <= q -> q < inject_Z n -> (0 <= Qfloor q < n)%Z.
Proof.
  intros H0 Hn. split.
  - change 0%Z with (Qfloor 0). now apply Qfloor_resp_le.
  - apply Z.lt_nge. intros Hge.
    assert (H : inject_Z n <= q).
    { eapply Qle_trans; [|apply Qfloor_le]. now rewrite <- Zle_Qle. }
    revert H. now apply Qlt_not_le.
Qed.

(** Rows 0 to 11 carry the twelve names from B down to C, in octave 3. *)
Lemma row_in_first_octave (row : Z) :
  (0 <= row < 12)%Z ->
  exists name,
    Piano.getRowNote row = Some name /\ chromatic name /\
    indexOf NOTE_NAMES name = (11 - row)%Z /\ Piano.getRowOctave row = 3%Z.
Proof.
  intros H.
  assert (E : row = Z.of_nat (Z.to_nat row)) by lia.
  assert (Hn : (Z.to_nat row < 12)%nat) by lia.
  rewrite E. generalize dependent (Z.to_nat row). intros n _ Hn.
  do 12 (destruct n as [|n];
         [eexists; repeat split; try reflexivity;
          unfold chromatic, NOTE_NAMES; simpl; tauto|]).
  lia.
Qed.

Lemma click_row_range (rect : Rect) (clientY : Q) :
  0 < rect_height rect ->
  rect_top rect < clientY -> clientY <= rect_bottom rect ->
  (0 <= click_row rect clientY < 12)%Z.
Proof.
  unfold click_row, rect_bottom, gridRows. intros Hh Ht Hb.
  apply Qfloor_range.
  - apply Qle_shift_div_l; [apply Qlt_shift_div_l; lra|lra].
  - apply Qlt_shift_div_r; [apply Qlt_shift_div_l; lra|].
    assert (E : inject_Z 12 * (rect_height rect / 12) == rect_height rect)
      by (change (inject_Z 12) with 12; field).
    rewrite E. lra.
Qed.

(** The element's hit area has its top edge and not its bottom edge; a
    click on the top edge is one full height above the bottom and falls
    in row 12, which is B of octave 4. *)
Lemma click_row_top (rect : Rect) (clientY : Q) :
  0 < rect_height rect -> clientY == rect_top rect ->
  click_row rect clientY = 12%Z.
Proof.
  unfold click_row, rect_bottom, gridRows. intros Hh Ht.
  assert (E : (rect_top rect + rect_height rect - clientY)
                / (rect_height rect / 12) == 12)
    by (rewrite Ht; field; lra).
  rewrite E. reflexivity.
Qed.

Lemma row_12 :
  Piano.getRowNote 12 = Some "B"%string /\ Piano.getRowOctave 12 = 4%Z.
Proof. split; reflexivity. Qed.

Lemma click_col_range (rect : Rect) (p : Props) (beatDivision clientX : Q) :
  0 < rect_width rect -> 0 < bars p -> 0 < beatDivision ->
  rect_left rect <= clientX -> clientX < rect_left rect + rect_width rect ->
  0 <= inject_Z (click_col rect p beatDivision clientX) * (4 / beatDivision)
  /\ inject_Z (click_col rect p beatDivision clientX) * (4 / beatDivision)
     < totalBeats p.
Proof.
  intros Hw Hb Hd Hl Hr. unfold click_col.
  set (gc := gridColumns p beatDivision).
  set (x := clientX - rect_left rect).
  assert (Hgc : 0 < gc).
  { unfold gc, gridColumns, totalBeats.
    apply Qmult_lt_0_compat; [lra|]. apply Qlt_shift_div_l; lra. }
  assert (Hx : 0 <= x /\ x < rect_width rect) by (unfold x; lra).
  assert (Hcw : 0 < rect_width rect / gc) by (apply Qlt_shift_div_l; lra).
  assert (Hs : 0 < 4 / beatDivision) by (apply Qlt_shift_div_l; lra).
  assert (Hq0 : 0 <= x / (rect_width rect / gc))
    by (apply Qle_shift_div_l; lra).
  assert (Hq1 : x / (rect_width rect / gc) < gc).
  { apply Qlt_shift_div_r; [exact Hcw|].
    assert (E : gc * (rect_width rect / gc) == rect_width rect)
      by (field; lra).
    rewrite E. lra. }
  assert (Hf0 : 0 <= inject_Z (Qfloor (x / (rect_width rect / gc)))).
  { change 0 with (inject_Z 0). rewrite <- Zle_Qle.
    change 0%Z with (Qfloor 0). now apply Qfloor_resp_le. }
  assert (Hf1 : inject_Z (Qfloor (x / (rect_width rect / gc))) < gc).
  { eapply Qle_lt_trans; [apply Qfloor_le|exact Hq1]. }
  split.
  - apply Qmult_le_0_compat; lra.
  - assert (E : totalBeats p == gc * (4 / beatDivision)).
    { unfold gc, gridColumns. field. lra. }
    rewrite E. apply Qmult_lt_compat_r; assumption.
Qed.

Lemma deleteNote_spec (i : string) (st : list Note * option string) (n : Note) :
  In n (fst (deleteNote i st)) <-> In n (fst st) /\ id n <> i.
Proof.
  unfold deleteNote. simpl. rewrite filter_In, negb_true_iff.
  split; intros [H1 H2]; split; try exact H1.
  - intros E. apply String.eqb_eq in E. congruence.
  - now apply String.eqb_neq.
Qed.

End Grid.

(* ===================================================================== *)
(** * Further facts about the sequencer *)
(* ===================================================================== *)

Module SequencerFacts.

Import Sequencer.
Local Open Scope Q_scope.

(** ** What the audio functions leave alone *)

(** Everything of the state except [voices] and [oscillators]. *)
Definition control (st : State) :=
  (props st, notes st, isPlaying st, currentBeat st, rafRef st,
   lastTimeRef st, schedulerIntervalRef st, intervals st, frames st,
   next_handle st).

Lemma playNote_control env n s d st : control (playNote env n s d st) = control st.
Proof. unfold playNote. now destruct (_ || _). Qed.

Lemma scheduleNotes_control env now st :
  control (scheduleNotes env now st) = control st.
Proof.
  unfold scheduleNotes. destruct (_ || _); [reflexivity|].
  generalize (r_notes env) as ns. intros ns. revert st.
  induction ns as [|n ns IH]; intros st; simpl; [reflexivity|].
  rewrite IH. destruct (in_window env now n); [|reflexivity].
  apply playNote_control.
Qed.

Lemma onended_control osc st : control (onended osc st) = control st.
Proof. unfold onended. now destruct (voices st !! osc). Qed.

Lemma stopAllNotes_control now st : control (stopAllNotes now st) = control st.
Proof. reflexivity. Qed.

(** ** At most one interval timer *)

Definition one_timer (st : State) : Prop :=
  tracked st /\ (length (intervals st) <= 1)%nat.

Lemma step_one_timer e st : one_timer st -> one_timer (step e st).
Proof.
  intros [Ht Hl]. split; [now apply step_tracked|].
  destruct e; simpl.
  - unfold togglePlay, render. simpl. destruct (isPlaying st) eqn:Hp.
    + destruct (stopSequencer_clears now st Ht) as (_ & -> & _). simpl. lia.
    + destruct Ht as [_ Hstop]. specialize (Hstop Hp).
      unfold startSequencer. destruct (negb _); [exact Hl|].
      simpl. rewrite Hstop. simpl. lia.
  - destruct (find_handle h (intervals st)); [|exact Hl].
    pose proof (scheduleNotes_control r now st) as E.
    injection E as _ _ _ _ _ _ _ E _ _. now rewrite E.
  - destruct (find_handle h (frames st)); [|exact Hl].
    destruct (playStep_keeps r now (cancelAnimationFrame h st)) as (-> & _).
    exact Hl.
  - pose proof (onended_control osc st) as E.
    injection E as _ _ _ _ _ _ _ E _ _. now rewrite E.
  - destruct (notes st !! i); [|exact Hl].
    destruct (_ && _); [|exact Hl].
    now rewrite playNote_intervals.
  - exact Hl.
  - exact Hl.
Qed.

Lemma run_one_timer es st : one_timer st -> one_timer (run es st).
Proof.
  revert st. induction es as [|e es IH]; intros st H; [exact H|].
  rewrite run_cons. apply IH. now apply step_one_timer.
Qed.

Lemma initial_one_timer p ns : one_timer (initial p ns).
Proof. split; [apply initial_tracked|simpl; lia]. Qed.

(** ** The playhead *)

(** The frame callbacks all come from [startSequencer], which runs in a
    render with [isPlaying = false]; their guard therefore fails, and
    [rafRef] and [currentBeat] keep their initial values. *)
Definition frozen (st : State) : Prop :=
  rafRef st = None /\ currentBeat st = 0 /\
  Forall (fun e => r_isPlaying (snd e) = false) (frames st).

Lemma find_handle_In h (l : list (nat * Render)) env :
  find_handle h l = Some env -> In (h, env) l.
Proof.
  unfold find_handle. destruct (List.find _ l) as [[h' env']|] eqn:E;
    [|discriminate].
  simpl. intros [= <-]. apply find_some in E. destruct E as [Hin He].
  simpl in He. apply Nat.eqb_eq in He. now subst.
Qed.

Lemma Forall_filter_keep {A} (P : A -> Prop) f (l : list A) :
  Forall P l -> Forall P (List.filter f l).
Proof.
  induction 1 as [|x l Hx _ IH]; simpl; [constructor|].
  destruct (f x); [constructor|]; assumption.
Qed.

Lemma step_frozen e st : frozen st -> frozen (step e st).
Proof.
  intros (Hr & Hc & Hf). destruct e; simpl.
  - unfold togglePlay, render. simpl. destruct (isPlaying st) eqn:Hp.
    + unfold stopSequencer, frozen. simpl. rewrite Hr. simpl.
      destruct (schedulerIntervalRef st); simpl; repeat split; assumption.
    + unfold startSequencer. destruct (negb _); [repeat split; assumption|].
      simpl. repeat split; [exact Hr|].
      apply Forall_app. split; [exact Hf|].
      constructor; [reflexivity|constructor].
  - destruct (find_handle h (intervals st)); [|repeat split; assumption].
    pose proof (scheduleNotes_control r now st) as E.
    injection E as _ _ _ E1 E2 _ _ _ E3 _.
    unfold frozen. now rewrite E1, E2, E3.
  - destruct (find_handle h (frames st)) as [env|] eqn:E;
      [|repeat split; assumption].
    apply find_handle_In in E.
    rewrite List.Forall_forall in Hf. pose proof (Hf _ E) as Hp. simpl in Hp.
    unfold playStep. rewrite Hp. simpl.
    repeat split; try assumption.
    apply Forall_filter_keep. now apply List.Forall_forall.
  - pose proof (onended_control osc st) as E.
    injection E as _ _ _ E1 E2 _ _ _ E3 _.
    unfold frozen. now rewrite E1, E2, E3.
  - destruct (notes st !! i); [|repeat split; assumption].
    destruct (_ && _); [|repeat split; assumption].
    pose proof (playNote_control (render st) n now (1 # 2) st) as E.
    injection E as _ _ _ E1 E2 _ _ _ E3 _.
    unfold frozen. now rewrite E1, E2, E3.
  - repeat split; assumption.
  - repeat split; assumption.
Qed.

Lemma run_frozen es st : frozen st -> frozen (run es st).
Proof.
  revert st. induction es as [|e es IH]; intros st H; [exact H|].
  rewrite run_cons. apply IH. now apply step_frozen.
Qed.

Lemma initial_frozen p ns : frozen (initial p ns).
Proof. repeat split. constructor. Qed.

(** ** Without an audio graph *)

Definition is_SetProps (e : Event) : bool :=
  match e with SetProps _ => true | _ => false end.

(** The props stay [p] and every timer callback was created under [p]. *)
Definition under (p : Props) (st : State) : Prop :=
  props st = p /\
  Forall (fun e => r_props (snd e) = p) (intervals st) /\
  Forall (fun e => r_props (snd e) = p) (frames st).

Lemma step_under p e st :
  is_SetProps e = false -> under p st -> under p (step e st).
Proof.
  intros He (Hp & Hi & Hf). destruct e; try discriminate He; simpl.
  - unfold togglePlay, render. simpl. destruct (isPlaying st).
    + unfold stopSequencer, under. simpl.
      destruct (rafRef st); simpl;
        destruct (schedulerIntervalRef st); simpl;
        repeat split; try assumption;
        repeat apply Forall_filter_keep; assumption.
    + unfold startSequencer. destruct (negb _); [repeat split; assumption|].
      unfold under. simpl. repeat split; [exact Hp| |];
        (apply Forall_app; split; [assumption|]);
        (constructor; [exact Hp|constructor]).
  - destruct (find_handle h (intervals st)); [|repeat split; assumption].
    pose proof (scheduleNotes_control r now st) as E.
    injection E as E1 _ _ _ _ _ _ E2 E3 _.
    unfold under. now rewrite E1, E2, E3.
  - destruct (find_handle h (frames st)) as [env|] eqn:E;
      [|repeat split; assumption].
    unfold playStep. destruct (_ || _); unfold under; simpl.
    + repeat split; try assumption. now apply Forall_filter_keep.
    + repeat split; try assumption.
      apply Forall_app. split; [now apply Forall_filter_keep|].
      constructor; [|constructor]. simpl.
      apply find_handle_In in E. rewrite List.Forall_forall in Hf.
      apply (Hf _ E).
  - pose proof (onended_control osc st) as E.
    injection E as E1 _ _ _ _ _ _ E2 E3 _.
    unfold under. now rewrite E1, E2, E3.
  - destruct (notes st !! i); [|repeat split; assumption].
    destruct (_ && _); [|repeat split; assumption].
    pose proof (playNote_control (render st) n now (1 # 2) st) as E.
    injection E as E1 _ _ _ _ _ _ E2 E3 _.
    unfold under. now rewrite E1, E2, E3.
  - repeat split; assumption.
Qed.

Lemma step_silent p e st :
  audioContext p && gainNode p = false ->
  is_SetProps e = false -> under p st ->
  length (voices (step e st)) = length (voices st).
Proof.
  intros Ha He (Hp & Hi & Hf). destruct e; try discriminate He; simpl.
  - unfold togglePlay, render. simpl. destruct (isPlaying st).
    + unfold stopSequencer. cbv zeta.
      rewrite stopAllNotes_length.
      destruct (rafRef (set_isPlaying false st)); simpl;
        destruct (schedulerIntervalRef st); reflexivity.
    + unfold startSequencer. now destruct (negb _).
  - destruct (find_handle h (intervals st)) as [env|] eqn:E; [|reflexivity].
    apply find_handle_In in E. rewrite List.Forall_forall in Hi.
    pose proof (Hi _ E) as Hq. simpl in Hq.
    rewrite scheduleNotes_voices. unfold audio_ready. now rewrite Hq, Ha.
  - destruct (find_handle h (frames st)); [|reflexivity].
    now destruct (playStep_keeps r now (cancelAnimationFrame h st))
      as (_ & _ & _ & ->).
  - now destruct (onended_keeps osc st) as (_ & _ & _ & _ & ->).
  - destruct (notes st !! i); [|reflexivity]. now rewrite Hp, Ha.
  - reflexivity.
Qed.

Lemma step_stays_stopped p e st :
  audioContext p = false -> is_SetProps e = false -> under p st ->
  isPlaying st = false -> intervals st = [] ->
  isPlaying (step e st) = false /\ intervals (step e st) = [].
Proof.
  intros Ha He (Hpr & _) Hp Hi. destruct e; try discriminate He; cbn [step].
  - unfold togglePlay, render. cbn [r_isPlaying]. rewrite Hp.
    unfold startSequencer. cbn [r_props]. rewrite Hpr, Ha. simpl. tauto.
  - rewrite Hi. simpl. tauto.
  - destruct (find_handle h (frames st)); [|tauto].
    destruct (playStep_keeps r now (cancelAnimationFrame h st))
      as (-> & _ & -> & _). simpl. tauto.
  - destruct (onended_keeps osc st) as (-> & _ & _ & -> & _). tauto.
  - destruct (notes st !! i); [|tauto].
    rewrite Hpr, Ha. simpl. tauto.
  - simpl. tauto.
Qed.

Lemma run_silent p es st :
  audioContext p && gainNode p = false ->
  forallb (fun e => negb (is_SetProps e)) es = true ->
  under p st ->
  length (voices (run es st)) = length (voices st) /\
  (audioContext p = false -> isPlaying st = false -> intervals st = [] ->
   isPlaying (run es st) = false /\ intervals (run es st) = []).
Proof.
  intros Hnull. revert st. induction es as [|e es IH]; intros st He Hs.
  - simpl. tauto.
  - simpl in He. apply andb_true_iff in He. destruct He as [He Hes].
    apply negb_true_iff in He. rewrite run_cons.
    destruct (IH _ Hes (step_under p e st He Hs)) as (I1 & I2).
    split.
    + rewrite I1. now apply (step_silent p).
    + intros Ha Hp Hi.
      destruct (step_stays_stopped p e st Ha He Hs Hp Hi) as [Hp' Hi'].
      now apply I2.
Qed.

(** ** Windows of ticks *)

Lemma windows_disjoint env t1 t2 n :
  t1 + lookAheadTime <= t2 ->
  in_window env t1 n = true -> in_window env t2 n = false.
Proof.
  intros Hgap H1. destruct (in_window env t2 n) eqn:H2; [|reflexivity].
  apply in_window_spec in H1. apply in_window_spec in H2.
  unfold lookAheadTime in Hgap. exfalso. lra.
Qed.

(** ** stopAllNotes *)

Lemma stop_voice_twice now v : stop_voice now (stop_voice now v) = stop_voice now v.
Proof. reflexivity. Qed.

Lemma stop_fold_lookup now (oscs : list nat) (vs : list Voice) (o : nat) :
  fold_left (fun vs o => alter (stop_voice now) o vs) oscs vs !! o =
  if bool_decide (o ∈ oscs) then stop_voice now <$> vs !! o else vs !! o.
Proof.
  revert vs. induction oscs as [|o1 oscs IH]; intros vs; cbn [fold_left].
  - case_bool_decide as H; [|reflexivity]. now apply elem_of_nil in H.
  - rewrite IH. destruct (decide (o = o1)) as [->|Hne].
    + rewrite list_lookup_alter_eq.
      case_bool_decide as H1; case_bool_decide as H2; try reflexivity;
        try (exfalso; apply H2; now left).
      now destruct (vs !! o1).
    + rewrite list_lookup_alter_ne by congruence.
      case_bool_decide as H1; case_bool_decide as H2; try reflexivity.
      * exfalso. apply H2. now right.
      * exfalso. apply elem_of_cons in H2. destruct H2; [congruence|contradiction].
Qed.

Lemma stopAllNotes_tracked now st k o v :
  oscillators st !! k = Some o -> voices st !! o = Some v ->
  voices (stopAllNotes now st) !! o = Some (stop_voice now v).
Proof.
  intros Hk Hv. unfold stopAllNotes. simpl.
  rewrite stop_fold_lookup, Hv. rewrite bool_decide_eq_true_2; [reflexivity|].
  apply list_elem_of_In. apply in_map_iff. exists (k, o). split; [reflexivity|].
  apply list_elem_of_In. now apply elem_of_map_to_list.
Qed.

Lemma stopped_is_silent now t v :
  now <= t -> sounding t (stop_voice now v) = false.
Proof.
  intros H. unfold sounding, stop_voice. simpl.
  rewrite (Qltb_false t now H). apply andb_false_r.
Qed.

(** ** Edits during playback *)

Lemma tick_ignores_edits h now st l p :
  voices (step (Tick h now) (step (SetProps p) (step (SetNotes l) st)))
  = voices (step (Tick h now) st).
Proof.
  simpl. destruct (find_handle h (intervals st)); [|reflexivity].
  now rewrite !scheduleNotes_voices.
Qed.

End SequencerFacts.

(* ===================================================================== *)
(** * The soundboard's synthesizer and octave control (PianoSoundboard) *)
(* ===================================================================== *)

Module Soundboard.

Import Sequencer.
Local Open Scope Q_scope.

(** One request of [playSynthesizedSound] to the audio sink. *)
Record SynthVoice := mkSynthVoice {
  sv_note : string;
  sv_octave : Z;
  sv_waveform : string;
  sv_gain : list AutomationEvent;
  sv_start : Q;
  sv_stop : Q
}.

(** [x || d] for an optional waveform name. *)
Definition or_waveform (x : option string) (d : string) : string :=
  match x with
  | Some s => if String.eqb s "" then d else s
  | None => d
  end.

(** The gain automation of [playSynthesizedSound] for [volume] and the
    envelope in use, with [ctx.currentTime = now]. *)
Definition synthEnvelope (volume : Q) (useEnvelope : ADSREnvelope) (now : Q)
    : list AutomationEvent :=
  [ SetValueAtTime 0 now;
    LinearRampToValueAtTime volume (now + attack useEnvelope);
    LinearRampToValueAtTime (volume * sustain useEnvelope)
      (now + attack useEnvelope + decay useEnvelope);
    LinearRampToValueAtTime (1 # 1000)
      (now + attack useEnvelope + decay useEnvelope + release useEnvelope) ].

(** [playSynthesizedSound(ctx, note, options)] with the component's
    [octave], [volume], [waveType] and [envelope]. *)
Definition playSynthesizedSound (octave : Z) (volume : Q) (waveType : string)
    (envelope : ADSREnvelope) (now : Q) (note : string)
    (opt_waveform : option string) (opt_envelope : option ADSREnvelope)
    : SynthVoice :=
  let useWaveform := or_waveform opt_waveform waveType in
  let useEnvelope := default envelope opt_envelope in
  let totalDuration :=
    attack useEnvelope + decay useEnvelope + release useEnvelope + (1 # 10) in
  mkSynthVoice note octave useWaveform (synthEnvelope volume useEnvelope now)
    now (now + totalDuration).

(** Frequency of the oscillator: the soundboard's own calculator. *)
Definition sv_frequency (v : SynthVoice) : R :=
  Frequency.getNoteFrequency_soundboard (sv_note v) (sv_octave v).

(** [handleOctaveChange(newOctave)] on the [octave] state. *)
Definition handleOctaveChange (newOctave : Z) (octave : Z) : Z :=
  if (1 <=? newOctave)%Z && (newOctave <=? 7)%Z then newOctave else octave.

(** The two buttons of ControlPanel; a disabled button does nothing. *)
Inductive Button := Minus | Plus.

Definition press (b : Button) (octave : Z) : Z :=
  match b with
  | Minus => if (octave <=? 1)%Z then octave
             else handleOctaveChange (octave - 1) octave
  | Plus => if (7 <=? octave)%Z then octave
            else handleOctaveChange (octave + 1) octave
  end.

(** ** Facts *)

Lemma synth_timeline_ordered volume env now :
  0 <= attack env -> 0 <= decay env -> 0 <= release env ->
  timeline (synthEnvelope volume env now) = synthEnvelope volume env now.
Proof.
  intros Ha Hd Hr. unfold timeline, synthEnvelope. simpl.
  repeat (rewrite Qle_bool_true by (simpl; lra); simpl).
  reflexivity.
Qed.

Lemma handleOctaveChange_range newOctave octave :
  (1 <= octave <= 7)%Z -> (1 <= handleOctaveChange newOctave octave <= 7)%Z.
Proof.
  intros H. unfold handleOctaveChange.
  destruct (Z.leb_spec 1 newOctave), (Z.leb_spec newOctave 7); simpl; lia.
Qed.

Lemma press_range b octave :
  (1 <= octave <= 7)%Z -> (1 <= press b octave <= 7)%Z.
Proof.
  intros H. destruct b; simpl.
  - destruct (Z.leb_spec octave 1); [exact H|now apply handleOctaveChange_range].
  - destruct (Z.leb_spec 7 octave); [exact H|now apply handleOctaveChange_range].
Qed.

End Soundboard.

(* ===================================================================== *)
(** * Further facts about the recorder *)
(* ===================================================================== *)

Module RecorderFacts.

Import Recorder.
Local Open Scope Z_scope.

(** Notes played on the soundboard, each with the time it is played. *)
Definition play_all (l : list (string * Z)) (st : State) : State :=
  fold_left (fun st e => recordNoteIfRecording (fst e) (snd e) st) l st.




Lemma play_all_cons e l st :
  play_all (e :: l) st = play_all l (recordNoteIfRecording (fst e) (snd e) st).
Proof. reflexivity. Qed.


Lemma stopRecording_soundboard st :
  sb_isRecording (stopRecording st) = false /\
  sb_recordingStartTimeRef (stopRecording st) = None /\
  sb_recordedSequence (stopRecording st) = sb_recordedSequence st.
Proof.
  unfold stopRecording. cbv zeta.
  match goal with |- context [commit st false ?x] => set (s := x) end.
  destruct (commit_fields st false s)
    as (_ & _ & _ & _ & _ & _ & _ & _ & _ & _ & _ & -> & -> & -> & _).
  unfold s, stopMetronome. simpl.
  destruct (global st); simpl;
    destruct (recordingTimerRef st); simpl;
    destruct (isMetronomePlaying st && negb (metronomeEnabled st)); simpl;
    try destruct (metronomeIntervalRef st); simpl; tauto.
Qed.

Lemma handleNoteAdded_idle x st :
  isRecording st = false -> handleNoteAdded x st = st.
Proof. intros H. unfold handleNoteAdded. now rewrite H. Qed.

Lemma recordNoteIfRecording_idle n now st :
  sb_isRecording st = false -> recordNoteIfRecording n now st = st.
Proof.
  intros H. unfold recordNoteIfRecording. rewrite H.
  now destruct (sb_recordingStartTimeRef st).
Qed.

Lemma startRecording_zero st :
  startTimeRef (startRecording 0 st) = Some 0 /\
  sb_recordingStartTimeRef (startRecording 0 st) = Some 0 /\
  recordedNotes (startRecording 0 st) = [].
Proof.
  destruct (startRecording_buffer 0 st) as (_ & H2 & H3 & _ & H4 & _). tauto.
Qed.

Lemma recordNoteIfRecording_start0 n now st :
  sb_recordingStartTimeRef st = Some 0 -> recordNoteIfRecording n now st = st.
Proof.
  intros H. unfold recordNoteIfRecording. rewrite H. simpl.
  now rewrite andb_false_r.
Qed.

(** ** The elapsed-time display *)

(** [n.toString()] for an integer. *)
Definition toString (n : Z) : string := NilZero.string_of_int (Z.to_int n).

(** [s.padStart(2, '0')] *)
Definition padStart2 (s : string) : string :=
  match String.length s with
  | O => "00"
  | S O => "0" ++ s
  | _ => s
  end%string.

(** [formatTime(ms)] *)
Definition formatTime (ms : Z) : string :=
  let totalSeconds := ms / 1000 in
  let minutes := totalSeconds / 60 in
  let seconds := Z.rem totalSeconds 60 in
  (padStart2 (toString minutes) ++ ":" ++ padStart2 (toString seconds))%string.

(** The decimal digit [d] as a one-character string. *)
Definition digit (d : Z) : string :=
  String (Ascii.ascii_of_nat (48 + Z.to_nat d)) EmptyString.

(** Two digits, a colon, two digits. *)
Definition mm_ss (minutes seconds : Z) : string :=
  (digit (minutes / 10) ++ digit (minutes mod 10) ++ ":" ++
   digit (seconds / 10) ++ digit (seconds mod 10))%string.

Lemma formatTime_seconds ms : formatTime ms = formatTime (ms / 1000 * 1000).
Proof.
  unfold formatTime. now rewrite Z.div_mul by lia.
Qed.

Lemma formatTime_table :
  forallb (fun t => String.eqb (formatTime (Z.of_nat t * 1000))
                      (mm_ss (Z.of_nat t / 60) (Z.of_nat t mod 60)))
    (seq 0 (Z.to_nat 6000)) = true.
Proof. vm_compute. reflexivity. Qed.

End RecorderFacts.

(* ===================================================================== *)
(** * Further methods of MemStorage and facts about the store *)
(* ===================================================================== *)

Module StorageFacts.

Import Storage.
Local Open Scope Z_scope.

(** ** Remaining read methods *)

(** [getAllSoundPacks(options)]: each filter applies when its option is
    given. *)
Definition getAllSoundPacks (userId : option Z) (isPublic : option bool)
    (s : Store) : list SoundPack :=
  let packs := values (soundPacks s) in
  let packs := match userId with
               | Some u => List.filter (fun pack => sp_userId pack =? u) packs
               | None => packs
               end in
  match isPublic with
  | Some b => List.filter (fun pack => Bool.eqb (sp_isPublic pack) b) packs
  | None => packs
  end.

(** [getUserByUsername(username)] *)
Definition getUserByUsername (username : string) (s : Store) : option User :=
  List.find (fun user => String.eqb (u_username user) username)
    (values (users s)).

(** [GET /users/:userId/purchases]: each purchase with the pack it
    refers to, if that is still stored. *)
Definition purchasesWithDetails (userId : Z) (s : Store)
    : list (Purchase * option SoundPack) :=
  map (fun purchase => (purchase, getSoundPack (p_packId purchase) s))
    (getUserPurchases userId s).

(** ** Shapes of the results *)

Lemma with_soundPacks_same s :
  with_soundPacks (soundPacks s) (soundPackIdCounter s) s = s.
Proof. now destruct s. Qed.

Lemma updateSoundPack_shape id u now s :
  snd (updateSoundPack id u now s) =
  with_soundPacks
    (match soundPacks s !! id with
     | Some p => <[id := apply_pack_updates id p u now]> (soundPacks s)
     | None => soundPacks s
     end) (soundPackIdCounter s) s.
Proof.
  unfold updateSoundPack, getSoundPack.
  destruct (soundPacks s !! id); simpl; [reflexivity|].
  now rewrite with_soundPacks_same.
Qed.

Definition del_keys {A} (ks : list Z) (m : gmap Z A) : gmap Z A :=
  fold_left (fun m k => delete k m) ks m.

Lemma del_keys_lookup {A} (ks : list Z) (m : gmap Z A) (k : Z) :
  del_keys ks m !! k = if bool_decide (k ∈ ks) then None else m !! k.
Proof.
  revert m. induction ks as [|k1 ks IH]; intros m; cbn [del_keys fold_left].
  - case_bool_decide as H; [|reflexivity]. now apply elem_of_nil in H.
  - change (fold_left (fun m k => delete k m) ks (delete k1 m))
      with (del_keys ks (delete k1 m)).
    rewrite IH.
    case_bool_decide as H1; case_bool_decide as H2; try reflexivity.
    + exfalso. apply H2. now right.
    + apply elem_of_cons in H2. destruct H2 as [->|H2]; [|contradiction].
      apply lookup_delete_eq.
    + rewrite lookup_delete_ne; [reflexivity|].
      intros ->. apply H2. now left.
Qed.

Lemma delete_sounds_shape (l : list Sound) s :
  delete_sounds l s =
  with_sounds (del_keys (map s_id l) (sounds s)) (soundIdCounter s) s.
Proof.
  revert s. induction l as [|x l IH]; intros s.
  - unfold delete_sounds, del_keys. simpl. now destruct s.
  - change (delete_sounds (x :: l) s)
      with (delete_sounds l (snd (deleteSound (s_id x) s))).
    rewrite IH. reflexivity.
Qed.

Lemma deleteSoundPack_shape id s :
  snd (deleteSoundPack id s) =
  with_soundPacks (delete id (soundPacks s)) (soundPackIdCounter s)
    (with_sounds (del_keys (map s_id (getSoundsByPackId id s)) (sounds s))
       (soundIdCounter s) s).
Proof.
  unfold deleteSoundPack. cbv zeta.
  fold (delete_sounds (getSoundsByPackId id s) s).
  rewrite delete_sounds_shape. reflexivity.
Qed.

Lemma deleteSoundPack_result id s :
  fst (deleteSoundPack id s) = bool_decide (is_Some (soundPacks s !! id)).
Proof.
  unfold deleteSoundPack. cbv zeta.
  fold (delete_sounds (getSoundsByPackId id s) s).
  rewrite delete_sounds_shape. reflexivity.
Qed.

(** ** Values of a map *)

Lemma elem_of_values {A} (m : gmap Z A) (x : A) :
  In x (values m) <-> exists k, m !! k = Some x.
Proof.
  unfold values. rewrite in_map_iff. split.
  - intros [[k y] [<- H]]. exists k.
    apply list_elem_of_In in H. now apply elem_of_map_to_list in H.
  - intros [k H]. exists (k, x). split; [reflexivity|].
    apply list_elem_of_In. now apply elem_of_map_to_list.
Qed.

(** ** Invariants of reachable stores *)

(** Identifiers in use are below the counter that hands out the next. *)
Definition below {A} (m : gmap Z A) (c : Z) : Prop :=
  forall k, is_Some (m !! k) -> k < c.

Definition counters_fresh (s : Store) : Prop :=
  below (users s) (userIdCounter s) /\
  below (soundPacks s) (soundPackIdCounter s) /\
  below (sounds s) (soundIdCounter s) /\
  below (reviews s) (reviewIdCounter s) /\
  below (purchases s) (purchaseIdCounter s).

Lemma below_insert {A} (m : gmap Z A) c x : below m c -> below (<[c := x]> m) (c + 1).
Proof.
  intros H k Hk. apply lookup_insert_is_Some in Hk.
  destruct Hk as [<-|[_ Hk]]; [lia|]. apply H in Hk. lia.
Qed.

Lemma below_update {A} (m : gmap Z A) c k x :
  is_Some (m !! k) -> below m c -> below (<[k := x]> m) c.
Proof.
  intros Hk H j Hj. apply lookup_insert_is_Some in Hj.
  destruct Hj as [<-|[_ Hj]]; now apply H.
Qed.

Lemma below_delete {A} (m : gmap Z A) c k : below m c -> below (delete k m) c.
Proof.
  intros H j Hj. apply H. destruct Hj as [x Hx].
  apply lookup_delete_Some in Hx. destruct Hx as [_ Hx]. eauto.
Qed.

Lemma below_del_keys {A} (m : gmap Z A) c ks : below m c -> below (del_keys ks m) c.
Proof.
  intros H j Hj. apply H. rewrite del_keys_lookup in Hj.
  case_bool_decide; [|exact Hj]. destruct Hj as [x Hx]. discriminate Hx.
Qed.

Lemma below_pack_update s id u now :
  below (soundPacks s) (soundPackIdCounter s) ->
  below (match soundPacks s !! id with
         | Some p => <[id := apply_pack_updates id p u now]> (soundPacks s)
         | None => soundPacks s
         end) (soundPackIdCounter s).
Proof.
  intros H. destruct (soundPacks s !! id) eqn:E; [|exact H].
  apply below_update; [rewrite E; eauto|exact H].
Qed.

Lemma exec_counters_fresh c now s : counters_fresh s -> counters_fresh (exec c now s).
Proof.
  intros (Hu & Hp & Hs & Hr & Hb). destruct c; cbn [exec].
  - unfold counters_fresh; simpl. repeat split; try assumption.
    now apply below_insert.
  - unfold counters_fresh; simpl. repeat split; try assumption.
    now apply below_insert.
  - rewrite updateSoundPack_shape. unfold counters_fresh; simpl.
    repeat split; try assumption. now apply below_pack_update.
  - rewrite deleteSoundPack_shape. unfold counters_fresh; simpl.
    repeat split; try assumption.
    + now apply below_delete.
    + now apply below_del_keys.
  - unfold counters_fresh; simpl. repeat split; try assumption.
    now apply below_insert.
  - unfold updateSound, getSound. destruct (sounds s !! id) eqn:E;
      unfold counters_fresh; simpl; repeat split; try assumption.
    apply below_update; [rewrite E; eauto|exact Hs].
  - unfold counters_fresh; simpl. repeat split; try assumption.
    now apply below_delete.
  - unfold createReview. cbv zeta. cbn [snd].
    rewrite updateSoundPack_shape. unfold counters_fresh; simpl.
    repeat split; try assumption.
    + now apply below_pack_update.
    + now apply below_insert.
  - unfold createPurchase. cbv zeta.
    change (getSoundPack (ip_packId ins)
              (with_purchases _ _ s)) with (soundPacks s !! ip_packId ins).
    destruct (soundPacks s !! ip_packId ins) as [p|] eqn:E; cbn [snd].
    + rewrite updateSoundPack_shape. unfold counters_fresh; simpl. rewrite E.
      repeat split; try assumption.
      * apply below_update; [rewrite E; eauto|exact Hp].
      * now apply below_insert.
    + unfold counters_fresh; simpl. repeat split; try assumption.
      now apply below_insert.
Qed.

Lemma reachable_counters_fresh s : reachable s -> counters_fresh s.
Proof.
  induction 1 as [|c now s _ IH].
  - repeat split; intros k [x Hx]; simpl in Hx; rewrite lookup_empty in Hx;
      discriminate Hx.
  - now apply exec_counters_fresh.
Qed.

(** The identifier stored in a sound is its key. *)
Definition sound_ids_match (s : Store) : Prop :=
  forall k x, sounds s !! k = Some x -> s_id x = k.

Lemma exec_sound_ids c now s : sound_ids_match s -> sound_ids_match (exec c now s).
Proof.
  intros H. destruct c; cbn [exec]; try exact H.
  - rewrite updateSoundPack_shape. exact H.
  - rewrite deleteSoundPack_shape. intros k x Hx. simpl in Hx.
    rewrite del_keys_lookup in Hx. case_bool_decide; [discriminate|].
    now apply H.
  - intros k x Hx. simpl in Hx. apply lookup_insert_Some in Hx.
    destruct Hx as [[<- <-]|[_ Hx]]; [reflexivity|now apply H].
  - unfold updateSound, getSound. destruct (sounds s !! id) eqn:E; [|exact H].
    intros k x Hx. simpl in Hx. apply lookup_insert_Some in Hx.
    destruct Hx as [[<- <-]|[_ Hx]]; [reflexivity|now apply H].
  - intros k x Hx. simpl in Hx. apply lookup_delete_Some in Hx.
    now apply H.
  - unfold createReview. cbv zeta. cbn [snd].
    rewrite updateSoundPack_shape. exact H.
  - unfold createPurchase. cbv zeta.
    destruct (getSoundPack _ _); cbn [snd]; [|exact H].
    rewrite updateSoundPack_shape. exact H.
Qed.

Lemma reachable_sound_ids s : reachable s -> sound_ids_match s.
Proof.
  induction 1 as [|c now s _ IH].
  - intros k x Hx. simpl in Hx. rewrite lookup_empty in Hx. discriminate Hx.
  - now apply exec_sound_ids.
Qed.

(** ** Rounded mean *)




(** ** Purchases *)


Lemma createPurchase_purchases ins now s :
  purchases (snd (createPurchase ins now s)) =
  <[purchaseIdCounter s :=
      mkPurchase (purchaseIdCounter s) (ip_userId ins) (ip_packId ins)
        (ip_price ins) now]> (purchases s).
Proof. now destruct (createPurchase_frame ins now s) as (_ & _ & _ & H & _). Qed.

End StorageFacts.

(* ===================================================================== *)
(** * The scheduler tick in double precision *)
(* ===================================================================== *)

(** [scheduleNotes] and [playNote] once more, with the numbers as the
    doubles they are at run time: the products, quotients and sums below
    are rounded as the source's are, and the comparisons are those of
    IEEE 754 (false on [NaN]).  Module [Sequencer] has the same code
    over exact rationals. *)
Module Doubles.

Local Open Scope float_scope.

Record Note := mkNote {
  id : string;
  note : string;
  octave : Z;
  startTime : float;
  duration : float;
  velocity : float
}.

Inductive AutomationEvent :=
| SetValueAtTime (value time : float)
| LinearRampToValueAtTime (value time : float).

Record Voice := mkVoice {
  osc_note : Note;
  osc_type : string;
  gain_events : list AutomationEvent;
  osc_start : float;
  osc_stop : float
}.

(** What a tick reads of the props, and what it changes: the voices
    handed to the audio sink, in order of creation, and the
    [oscillators] map. *)
Record Props := mkProps {
  audioContext : bool;
  gainNode : bool;
  bpm : float
}.

Record Sink := mkSink {
  voices : list Voice;
  oscillators : gmap string nat
}.

(** [const beatDuration = 60000 / bpm] *)
Definition beatDuration (p : Props) : float := 60000 / bpm p.

Definition playNote (p : Props) (n : Note) (startTime duration : float)
    (s : Sink) : Sink :=
  if negb (audioContext p) || negb (gainNode p) then s
  else
    let osc := length (voices s) in
    let v := mkVoice n "sine"
               [ SetValueAtTime 0 startTime;
                 LinearRampToValueAtTime (velocity n) (startTime + 0.01);
                 LinearRampToValueAtTime (velocity n * 0.7)
                   (startTime + 0.01 + 0.1);
                 SetValueAtTime (velocity n * 0.7) (startTime + duration - 0.3);
                 LinearRampToValueAtTime 0 (startTime + duration) ]
               startTime (startTime + duration + 0.05) in
    mkSink (voices s ++ [v]) (<[id n := osc]> (oscillators s)).

Definition lookAheadTime : float := 0.1.

Definition noteStartTime (p : Props) (n : Note) : float :=
  startTime n * beatDuration p / 1000.

Definition noteDuration (p : Props) (n : Note) : float :=
  duration n * beatDuration p / 1000.

(** [noteStartTime >= currentTime && noteStartTime < currentTime + lookAheadTime] *)
Definition in_window (p : Props) (currentTime : float) (n : Note) : bool :=
  (currentTime <=? noteStartTime p n)
  && (noteStartTime p n <? currentTime + lookAheadTime).

(** [scheduleNotes()] for the pattern [notes], run when the audio clock
    reads [currentTime]. *)
Definition scheduleNotes (p : Props) (notes : list Note) (currentTime : float)
    (s : Sink) : Sink :=
  if negb (audioContext p) || negb (gainNode p) then s
  else
    fold_left
      (fun s n =>
         if in_window p currentTime n
         then playNote p n (noteStartTime p n) (noteDuration p n) s
         else s)
      notes s.

(** The notes a tick dispatches and the voice made for each. *)
Definition due (p : Props) (currentTime : float) (notes : list Note) : list Note :=
  List.filter (in_window p currentTime) notes.

Definition scheduled_voice (p : Props) (n : Note) : Voice :=
  mkVoice n "sine"
    [ SetValueAtTime 0 (noteStartTime p n);
      LinearRampToValueAtTime (velocity n) (noteStartTime p n + 0.01);
      LinearRampToValueAtTime (velocity n * 0.7) (noteStartTime p n + 0.01 + 0.1);
      SetValueAtTime (velocity n * 0.7)
        (noteStartTime p n + noteDuration p n - 0.3);
      LinearRampToValueAtTime 0 (noteStartTime p n + noteDuration p n) ]
    (noteStartTime p n) (noteStartTime p n + noteDuration p n + 0.05).

(** ** Facts *)

Lemma scheduleNotes_doubles_loop p now (ns : list Note) s :
  audioContext p = true -> gainNode p = true ->
  voices
    (fold_left
       (fun s n =>
          if in_window p now n
          then playNote p n (noteStartTime p n) (noteDuration p n) s
          else s) ns s)
  = voices s ++ map (scheduled_voice p) (List.filter (in_window p now) ns).
Proof.
  intros Ha Hg. revert s.
  induction ns as [|n ns IH]; intros s; simpl; [now rewrite app_nil_r|].
  rewrite IH. destruct (in_window p now n); [|reflexivity].
  unfold playNote. rewrite Ha, Hg. simpl. now rewrite <- app_assoc.
Qed.

(** Runs of the window test.  At 120 bpm the note on beat 2 starts at
    1 s and is in the window of a tick at 0.95 s.  At 112 bpm the start
    of the note on beat 7 is computed as 3.7499999999999996, one unit in
    the last place below 3.75, and a tick at 3.75 s does not find it.
    At a tempo of 0 [beatDuration] is [Infinity], the start of a note is
    [NaN] on beat 0 and [Infinity] after it, and no tick finds it. *)
Definition on_beat (k : float) : Note := mkNote "note" "C" 4 k 1 0.7.

Example window_at_120 :
  noteStartTime (mkProps true true 120) (on_beat 2) = 1 /\
  in_window (mkProps true true 120) 0.95 (on_beat 2) = true.
Proof. vm_compute. split; reflexivity. Qed.

Example window_at_112 :
  noteStartTime (mkProps true true 112) (on_beat 7) = 3.7499999999999996 /\
  (noteStartTime (mkProps true true 112) (on_beat 7) <? 3.75) = true /\
  in_window (mkProps true true 112) 3.75 (on_beat 7) = false /\
  in_window (mkProps true true 112) 3.7 (on_beat 7) = true.
Proof. vm_compute. repeat split; reflexivity. Qed.

Example window_at_tempo_0 :
  beatDuration (mkProps true true 0) = infinity /\
  noteStartTime (mkProps true true 0) (on_beat 0) = nan /\
  noteStartTime (mkProps true true 0) (on_beat 1) = infinity /\
  due (mkProps true true 0) 0 [on_beat 0; on_beat 1] = [] /\
  due (mkProps true true 0) 0.5 [on_beat 0; on_beat 1] = [].
Proof. vm_compute. repeat split; reflexivity. Qed.

End Doubles.

(* ===================================================================== *)
(** * Scenarios *)
(* ===================================================================== *)

Module Scenario.

Import Sequencer.
Local Open Scope Q_scope.

(** Props of a sequencer at 120 bpm with one bar (a 4-beat pattern) and
    the audio graph ready. *)
Definition props120 : Props := mkProps true true 120 1.

(** Quarter notes on beats 0, 1 and 2. *)
Definition on_beat0 : Note := mkNote "note-0" "C" 4 0 1 (7 # 10).
Definition on_beat1 : Note := mkNote "note-1" "E" 4 1 1 (7 # 10).
Definition on_beat2 : Note := mkNote "note-2" "G" 4 2 1 (7 # 10).

(** A pack, as [POST /soundpacks] hands it to the store. *)
Definition grand : Storage.InsertSoundPack :=
  Storage.mkInsertSoundPack "Grand" (Some "A grand piano"%string) 1
    (Some 499%Z) (Some true) None.

End Scenario.

(** The envelope on concrete notes.  A quarter note at 120 bpm (0.5 s)
    is longer than attack + decay + release of [playNote]'s envelope
    (0.41 s), so its curve is the ordered one. *)
Example quarter_note_curve :
  let v := Sequencer.scheduled_voice
             (Sequencer.render (Sequencer.initial Scenario.props120 []))
             Scenario.on_beat2 in
  Qeq_bool (Sequencer.gain_at v 1) 0 = true /\
  Qeq_bool (Sequencer.gain_at v (101 # 100)) (7 # 10) = true /\
  Qeq_bool (Sequencer.gain_at v (111 # 100)) (49 # 100) = true /\
  Qeq_bool (Sequencer.gain_at v (12 # 10)) (49 # 100) = true /\
  Qeq_bool (Sequencer.gain_at v (15 # 10)) 0 = true.
Proof. vm_compute. repeat split; reflexivity. Qed.

(** The unguarded case: a note shorter than attack + decay + release.
    A note of 0.35 s has its hold scheduled at 0.05 s, before the end
    of the decay ramp: the gain stays at the peak until then and drops
    to the sustain level there. *)
Example short_note_hold_cuts_the_decay :
  let v := Sequencer.voice_of (Sequencer.mkNote "note-0" "C" 4 0 1 1) 0 (35 # 100) in
  Qeq_bool (Sequencer.gain_at v (4 # 100)) 1 = true /\
  Qeq_bool (Sequencer.gain_at v (5 # 100)) (7 # 10) = true /\
  Qeq_bool (Sequencer.gain_at v (8 # 100)) (7 # 10) = true.
Proof. vm_compute. repeat split; reflexivity. Qed.

(* ===================================================================== *)
(** * The claims of the specification *)
(* ===================================================================== *)

Import Scenario.

(** C1.  The specification has every tick compute a note's start as an
    offset from the reference timestamp taken when playback starts.
    [scheduleNotes] compares the raw audio clock with the note's
    pattern-relative start instead.  Playback is started when the audio
    clock reads 5 s; the note on beat 1 is due at 5.5 s, and the tick at
    5.5 s (and each of the hundred ticks from 5.1 s to 15 s) dispatches
    nothing. *)
Theorem C1_scheduler_ignores_reference_timestamp :
  let st := Sequencer.run [Sequencer.Toggle 5] (Sequencer.initial props120 [on_beat1]) in
  Sequencer.isPlaying st = true /\
  Sequencer.lastTimeRef st = 5%Q /\
  Sequencer.schedulerIntervalRef st = Some 2%nat /\
  Sequencer.spec_due (Sequencer.lastTimeRef st) props120 (55 # 10) on_beat1 = true /\
  Sequencer.in_window (Sequencer.render (Sequencer.initial props120 [on_beat1]))
    (55 # 10) on_beat1 = false /\
  Sequencer.voices (Sequencer.run [Sequencer.Tick 2 (55 # 10)] st) = [] /\
  Sequencer.voices (Sequencer.run (Sequencer.ticks 2 5 (1 # 10) 100) st) = [].
Proof. vm_compute. repeat split; reflexivity. Qed.

(** C2.  Ten seconds of playback of a 4-beat pattern at 120 bpm (five
    passes of 2 s) with one note on beat 0: the hundred ticks at 0.1 s,
    0.2 s, ..., 10 s dispatch the note not once per pass but never; with
    an extra tick at 0 s it is dispatched once in all.  Within one pass,
    two ticks less than 100 ms apart dispatch the same note twice. *)
Theorem C2_dispatch_count_over_ten_seconds :
  let s0 := Sequencer.initial props120 [on_beat0] in
  Qeq_bool (Sequencer.totalBeats props120) 4 = true /\
  Sequencer.dispatches_of "note-0"
    (Sequencer.run (Sequencer.Toggle 0 :: Sequencer.ticks 2 0 (1 # 10) 100) s0) = 0%nat /\
  Sequencer.dispatches_of "note-0"
    (Sequencer.run (Sequencer.Toggle 0 :: Sequencer.Tick 2 0
                      :: Sequencer.ticks 2 0 (1 # 10) 100) s0) = 1%nat /\
  Sequencer.dispatches_of "note-2"
    (Sequencer.run [Sequencer.Toggle 0; Sequencer.Tick 2 (905 # 1000);
                    Sequencer.Tick 2 (995 # 1000)]
       (Sequencer.initial props120 [on_beat2])) = 2%nat.
Proof. vm_compute. repeat split; reflexivity. Qed.

(** C3.  ["H"] is not a chromatic name.  The calculator of lib/piano.ts
    returns 0 for it, where the copies of PianoSoundboard.tsx and
    SoundPackEditor.tsx return the fallback 440. *)
Theorem C3_lib_unknown_name_gives_zero :
  ~ Frequency.chromatic "H" /\
  Frequency.getNoteFrequency "H" 4 = 0%R /\
  Frequency.getNoteFrequency "H" 4 <> 440%R /\
  Frequency.getNoteFrequency_soundboard "H" 4 = 440%R /\
  Frequency.getNoteFrequency_editor "H" 4 = 440%R.
Proof.
  pose proof Frequency.H_not_chromatic as H.
  rewrite (Frequency.getNoteFrequency_unknown _ 4 H).
  rewrite (Frequency.getNoteFrequency_soundboard_unknown _ 4 H).
  rewrite (Frequency.getNoteFrequency_editor_unknown _ 4 H).
  repeat split; try assumption; try reflexivity. lra.
Qed.

(** C4.  Playback of a pattern with one note on beat 2 (due at 1 s).
    Two ticks 90 ms apart both find the note in their window, so two
    oscillators are created and the second replaces the first under the
    note's id in [oscillators].  Stop is pressed at 1.2 s:
    [stopAllNotes] stops the second oscillator only, and the first is
    still sounding after [stopSequencer] has returned.  The same happens
    when a note block is double-clicked twice during playback.  Also, a
    stop that comes before the first animation frame leaves that frame
    request pending, because [startSequencer] does not keep its handle. *)
Theorem C4_stop_leaves_a_voice_sounding :
  let s0 := Sequencer.initial props120 [on_beat2] in
  let playing :=
    Sequencer.run [Sequencer.Toggle 0; Sequencer.Frame 1 (16 # 1000);
                   Sequencer.Tick 2 (905 # 1000); Sequencer.Tick 2 (995 # 1000)] s0 in
  let stopped := Sequencer.step (Sequencer.Toggle (12 # 10)) playing in
  let previewed :=
    Sequencer.run [Sequencer.Toggle 0; Sequencer.Frame 1 (16 # 1000);
                   Sequencer.Preview 0 1; Sequencer.Preview 0 (12 # 10);
                   Sequencer.Toggle (13 # 10)] s0 in
  Sequencer.isPlaying playing = true /\
  Sequencer.isPlaying stopped = false /\
  Sequencer.intervals stopped = [] /\
  Sequencer.frames stopped = [] /\
  map (Sequencer.sounding (12 # 10)) (Sequencer.voices stopped) = [true; false] /\
  Sequencer.isPlaying previewed = false /\
  map (Sequencer.sounding (13 # 10)) (Sequencer.voices previewed) = [true; false] /\
  map fst (Sequencer.frames
             (Sequencer.run [Sequencer.Toggle 0; Sequencer.Toggle (1 # 100)] s0))
  = [1%nat].
Proof. vm_compute. repeat split; reflexivity. Qed.




(** C6, as the code has it.  The envelope is not an input of the
    dispatch: [playNote] has it as a literal, attack 0.01 s, decay
    0.1 s, sustain 0.7, release 0.3 s.  With the audio graph ready,
    [playNote] hands the sink one voice whose gain automation is, for
    peak [v] (the note's velocity), start time [start] and duration [d]:
    value 0 set at [start], a linear ramp to [v] at [start + 0.01], a
    linear ramp to [0.7 v] at [start + 0.01 + 0.1], [0.7 v] set (held)
    at [start + d - 0.3], and a linear ramp to 0 at [start + d].  When
    attack, decay and release fit into the duration ([0.41 <= d]) the
    gain of the voice is 0 at [start], [v] at [start + 0.01], [0.7 v]
    at [start + 0.11] and until the release begins, and 0 at
    [start + d]. *)
Theorem C6_playNote_envelope
    (env : Sequencer.Render) (n : Sequencer.Note) (start d : Q)
    (st : Sequencer.State)
    (Hready : Sequencer.audio_ready env = true) :
  exists vo,
    Sequencer.voices (Sequencer.playNote env n start d st)
      = Sequencer.voices st ++ [vo] /\
    Sequencer.osc_start vo = start /\
    Sequencer.gain_events vo =
      [ Sequencer.SetValueAtTime 0 start;
        Sequencer.LinearRampToValueAtTime (Sequencer.velocity n)
          (start + (1 # 100));
        Sequencer.LinearRampToValueAtTime (Sequencer.velocity n * (7 # 10))
          (start + (1 # 100) + (1 # 10));
        Sequencer.SetValueAtTime (Sequencer.velocity n * (7 # 10))
          (start + d - (3 # 10));
        Sequencer.LinearRampToValueAtTime 0 (start + d) ]%Q /\
    ((41 # 100 <= d)%Q ->
     (Sequencer.gain_at vo start == 0)%Q /\
     (Sequencer.gain_at vo (start + (1 # 100)) == Sequencer.velocity n)%Q /\
     (Sequencer.gain_at vo (start + (1 # 100) + (1 # 10))
        == Sequencer.velocity n * (7 # 10))%Q /\
     (forall t, (start + (1 # 100) + (1 # 10) <= t)%Q ->
                (t < start + d - (3 # 10))%Q ->
                (Sequencer.gain_at vo t == Sequencer.velocity n * (7 # 10))%Q) /\
     (Sequencer.gain_at vo (start + d) == 0)%Q).
Proof.
  exists (Sequencer.voice_of n start d).
  split; [rewrite Sequencer.playNote_voices; now rewrite Hready|].
  split; [reflexivity|]. split; [reflexivity|].
  intros Hfit.
  assert (Ha : (0 < Sequencer.attack Sequencer.playNote_envelope)%Q) by reflexivity.
  assert (Hd : (0 < Sequencer.decay Sequencer.playNote_envelope)%Q) by reflexivity.
  assert (Hr : (0 < Sequencer.release Sequencer.playNote_envelope)%Q) by reflexivity.
  assert (Hf : (Sequencer.attack Sequencer.playNote_envelope
                + Sequencer.decay Sequencer.playNote_envelope
                <= d - Sequencer.release Sequencer.playNote_envelope)%Q)
    by (simpl; lra).
  exact (Sequencer.curve_ordered (Sequencer.velocity n)
           Sequencer.playNote_envelope start d Ha Hd Hr Hf).
Qed.

Lemma C6_playNote_envelope_witness :
  exists vo,
    Sequencer.voices
      (Sequencer.playNote (Sequencer.render (Sequencer.initial props120 []))
         (Sequencer.mkNote "note-0" "C" 4 0 2 1) 0 1
         (Sequencer.initial props120 []))
      = [] ++ [vo] /\
    (Sequencer.gain_at vo 0 == 0)%Q /\
    (Sequencer.gain_at vo (0 + (1 # 100)) == 1)%Q /\
    (Sequencer.gain_at vo (0 + (1 # 100) + (1 # 10)) == 1 * (7 # 10))%Q /\
    (Sequencer.gain_at vo (0 + 1) == 0)%Q.
Proof.
  destruct (C6_playNote_envelope
              (Sequencer.render (Sequencer.initial props120 []))
              (Sequencer.mkNote "note-0" "C" 4 0 2 1) 0 1
              (Sequencer.initial props120 []) eq_refl)
    as (vo & Hv & _ & _ & Hg).
  exists vo. split; [exact Hv|].
  assert (Hfit : (41 # 100 <= 1)%Q) by (vm_compute; congruence).
  destruct (Hg Hfit) as (G0 & G1 & G2 & _ & G4).
  repeat split; assumption.
Defined.

(** C6 as the specification states it takes the envelope as an input
    and names 0.1 / 0.2 / 0.7 / 0.5 with peak 1.  A note of velocity 1
    and duration 1 s is dispatched at time 0: the breakpoints scheduled
    are not the claimed ones (0 at 0, 1 at 0.1, 0.7 at 0.3, hold from
    0.5, 0 at 1); the ramp to the peak ends at 0.01, and at t = attack
    = 0.1, where the claim has the gain at 1.0, the gain is 0.73. *)
Lemma C6_claimed_breakpoints_not_scheduled :
  exists vo,
    Sequencer.voices
      (Sequencer.playNote (Sequencer.render (Sequencer.initial props120 []))
         (Sequencer.mkNote "note-0" "C" 4 0 2 1) 0 1
         (Sequencer.initial props120 []))
      = [vo] /\
    map (fun e => (Qred (Sequencer.event_time e), Qred (Sequencer.event_value e)))
        (Sequencer.gain_events vo)
      = [ (0, 0); (1 # 100, 1); (11 # 100, 7 # 10); (7 # 10, 7 # 10); (1, 0) ]%Q /\
    map (fun e => (Qred (Sequencer.event_time e), Qred (Sequencer.event_value e)))
        (Sequencer.gain_events vo)
      <> [ (0, 0); (1 # 10, 1); (3 # 10, 7 # 10); (1 # 2, 7 # 10); (1, 0) ]%Q /\
    Qeq_bool (Sequencer.gain_at vo (1 # 10)) 1 = false /\
    Qeq_bool (Sequencer.gain_at vo (1 # 10)) (73 # 100) = true /\
    Qeq_bool (Sequencer.gain_at vo (1 # 100)) 1 = true.
Proof.
  eexists. split; [reflexivity|].
  vm_compute. repeat split; try reflexivity. discriminate.
Qed.

(** C7.  For the [i]-th of the twelve chromatic names and any integer
    octave the calculator returns 440 * 2^(semitones / 12) with
    semitones = (octave - 4) * 12 + (i - 9), where 9 is the index of A;
    and the frequency of A4 is 440. *)
Theorem C7_equal_tempered_frequency (i : nat) (note : string) (octave : Z)
    (H : nth_error Frequency.NOTE_NAMES i = Some note) :
  Frequency.getNoteFrequency note octave =
    (440 * Rpower 2 (IZR ((octave - 4) * 12 + (Z.of_nat i - 9)) / 12))%R /\
  Frequency.indexOf Frequency.NOTE_NAMES "A" = 9 /\
  Frequency.getNoteFrequency "A" 4 = 440%R.
Proof.
  split; [|split].
  - rewrite Frequency.getNoteFrequency_known by (eapply Frequency.nth_chromatic, H).
    now rewrite (Frequency.indexOf_nth i note H).
  - reflexivity.
  - rewrite Frequency.getNoteFrequency_known
      by (apply (Frequency.nth_chromatic 9); reflexivity).
    change (Frequency.indexOf Frequency.NOTE_NAMES "A") with 9.
    change (Frequency.semitones 4 9) with 0.
    unfold Rdiv. rewrite Rmult_0_l, Rpower_O by lra. lra.
Qed.

Lemma C7_equal_tempered_frequency_witness :
  nth_error Frequency.NOTE_NAMES 0 = Some "C"%string /\
  Frequency.getNoteFrequency "C" 5 =
    (440 * Rpower 2 (IZR ((5 - 4) * 12 + (Z.of_nat 0 - 9)) / 12))%R.
Proof.
  split; [reflexivity|].
  exact (proj1 (C7_equal_tempered_frequency 0 "C"%string 5 eq_refl)).
Defined.

(** C9.  A pack is created, bought through the purchase route and then
    deleted through the delete route; each request succeeds.  The
    purchase is still stored and its pack is gone: the store is
    reachable and does not satisfy "every purchase references an
    existing pack". *)
Theorem C9_purchase_outlives_deleted_pack :
  let requests :=
    [ (Storage.PostSoundPack grand, 10);
      (Storage.PostPurchase (Some 7) (Some 1), 20);
      (Storage.DeleteSoundPack 1, 30) ] in
  let s2 := Storage.serve (firstn 2 requests) Storage.empty_store in
  let s3 := Storage.serve requests Storage.empty_store in
  fst (Storage.handle (Storage.PostSoundPack grand) 10 Storage.empty_store) = 201 /\
  fst (Storage.handle (Storage.PostPurchase (Some 7) (Some 1)) 20
         (Storage.serve (firstn 1 requests) Storage.empty_store)) = 201 /\
  fst (Storage.handle (Storage.DeleteSoundPack 1) 30 s2) = 200 /\
  Storage.reachable s3 /\
  Storage.purchases s3 !! 1 = Some (Storage.mkPurchase 1 7 1 499 20) /\
  Storage.soundPacks s3 !! 1 = None /\
  ~ Storage.purchases_reference_packs s3.
Proof.
  cbv zeta.
  split; [reflexivity|]. split; [vm_compute; reflexivity|].
  split; [vm_compute; reflexivity|].
  split; [apply Storage.serve_reachable, Storage.reach_empty|].
  assert (Hp : Storage.purchases
                 (Storage.serve
                    [ (Storage.PostSoundPack grand, 10);
                      (Storage.PostPurchase (Some 7) (Some 1), 20);
                      (Storage.DeleteSoundPack 1, 30) ] Storage.empty_store) !! 1
               = Some (Storage.mkPurchase 1 7 1 499 20))
    by (vm_compute; reflexivity).
  assert (Hk : Storage.soundPacks
                 (Storage.serve
                    [ (Storage.PostSoundPack grand, 10);
                      (Storage.PostPurchase (Some 7) (Some 1), 20);
                      (Storage.DeleteSoundPack 1, 30) ] Storage.empty_store) !! 1
               = None)
    by (vm_compute; reflexivity).
  split; [exact Hp|]. split; [exact Hk|].
  intros Hinv. specialize (Hinv 1 _ Hp). cbn [Storage.p_packId] in Hinv.
  rewrite Hk in Hinv. destruct Hinv as [x Hx]. discriminate Hx.
Qed.




(* ===================================================================== *)
(** * Further properties of the code *)
(* ===================================================================== *)

(** X1.  On the twelve chromatic names the three copies of the frequency
    calculator (lib/piano.ts, PianoSoundboard.tsx, SoundPackEditor.tsx)
    return the same frequency, for every octave. *)
Theorem X1_calculators_agree (note : string) (octave : Z)
    (H : Frequency.chromatic note) :
  Frequency.getNoteFrequency note octave =
    Frequency.getNoteFrequency_soundboard note octave /\
  Frequency.getNoteFrequency note octave =
    Frequency.getNoteFrequency_editor note octave.
Proof.
  unfold Frequency.getNoteFrequency, Frequency.getNoteFrequency_soundboard,
    Frequency.getNoteFrequency_editor.
  destruct (Z.eqb_spec (Frequency.indexOf Frequency.NOTE_NAMES note) (-1)) as [E|_].
  - now apply Frequency.indexOf_present in H.
  - split; reflexivity.
Qed.

Lemma X1_calculators_agree_witness :
  Frequency.chromatic "D#" /\
  Frequency.getNoteFrequency "D#" 2 = Frequency.getNoteFrequency_soundboard "D#" 2.
Proof.
  assert (H : Frequency.chromatic "D#")
    by (apply (Frequency.nth_chromatic 3); reflexivity).
  split; [exact H|]. exact (proj1 (X1_calculators_agree "D#"%string 2 H)).
Defined.

(** X2.  Within the octaves 0 to 10 (the keyboard and well beyond it;
    far outside, doubles underflow to 0 or overflow), frequencies of
    chromatic names are positive and grow with the pitch: if the [i]-th
    name in octave [o1] lies below the [j]-th name in octave [o2] (in
    semitones), its frequency is strictly smaller. *)
Theorem X2_frequency_increases (i j : nat) (n1 n2 : string) (o1 o2 : Z)
    (H1 : nth_error Frequency.NOTE_NAMES i = Some n1)
    (H2 : nth_error Frequency.NOTE_NAMES j = Some n2)
    (Ho1 : 0 <= o1 <= 10) (Ho2 : 0 <= o2 <= 10)
    (Hlt : o1 * 12 + Z.of_nat i < o2 * 12 + Z.of_nat j) :
  (0 < Frequency.getNoteFrequency n1 o1 < Frequency.getNoteFrequency n2 o2)%R.
Proof.
  rewrite !Frequency.getNoteFrequency_known
    by (eapply Frequency.nth_chromatic; eassumption).
  rewrite (Frequency.indexOf_nth i n1 H1), (Frequency.indexOf_nth j n2 H2).
  unfold Frequency.semitones, Frequency.a4Octave, Frequency.a4Index.
  set (a := (o1 - 4) * 12 + (Z.of_nat i - 9)).
  set (b := (o2 - 4) * 12 + (Z.of_nat j - 9)).
  assert (Hab : (IZR a / 12 < IZR b / 12)%R).
  { assert (a < b) by (unfold a, b; lia).
    apply IZR_lt in H. lra. }
  assert (Hpos : (0 < Rpower 2 (IZR a / 12))%R)
    by (unfold Rpower; apply exp_pos).
  assert (Hmono : (Rpower 2 (IZR a / 12) < Rpower 2 (IZR b / 12))%R)
    by (apply Rpower_lt; lra).
  lra.
Qed.

Lemma X2_frequency_increases_witness :
  (0 < Frequency.getNoteFrequency "B" 3 < Frequency.getNoteFrequency "C" 4)%R.
Proof.
  apply (X2_frequency_increases 11 0 "B"%string "C"%string 3 4);
    [reflexivity|reflexivity|lia|lia|lia].
Defined.

(** X3.  [generatePianoGridNotes(count)] returns [count] keys; the
    [i]-th key has index [i], the name at position [i mod 12] of
    [NOTE_NAMES] and the colour at position [i mod 16] of
    [NOTE_COLORS].  Both are defined, and the name is chromatic, so the
    calculator never meets an unknown name from the grid: in the octaves
    0 to 10 its frequency is positive. *)
Theorem X3_grid_keys (count i : nat) (H : (i < count)%nat) :
  length (Piano.generatePianoGridNotes count) = count /\
  exists name color,
    Piano.generatePianoGridNotes count !! i
      = Some (Piano.mkGridNote (Some name) (Some color) i) /\
    Frequency.NOTE_NAMES !! (i mod 12)%nat = Some name /\
    Piano.NOTE_COLORS !! (i mod 16)%nat = Some color /\
    Frequency.chromatic name /\
    forall octave, 0 <= octave <= 10 ->
      (0 < Frequency.getNoteFrequency name octave)%R.
Proof.
  split; [apply Piano.generate_length|].
  destruct (Piano.name_lookup_lt (i mod 12)) as [name Hn];
    [apply Nat.mod_upper_bound; lia|].
  destruct (Piano.color_lookup_lt (i mod 16)) as [color Hc];
    [apply Nat.mod_upper_bound; lia|].
  exists name, color.
  destruct (Piano.name_lookup_chromatic _ _ Hn) as [Hchr _].
  rewrite Piano.generate_lookup by exact H. rewrite Hn, Hc.
  repeat split; try assumption.
  intros octave _. rewrite Frequency.getNoteFrequency_known by exact Hchr.
  assert (0 < Rpower 2 (IZR (Frequency.semitones octave
            (Frequency.indexOf Frequency.NOTE_NAMES name)) / 12))%R
    by (unfold Rpower; apply exp_pos).
  lra.
Qed.

Lemma X3_grid_keys_witness :
  length (Piano.generatePianoGridNotes 16) = 16%nat /\
  exists name color,
    Piano.generatePianoGridNotes 16 !! 13%nat
      = Some (Piano.mkGridNote (Some name) (Some color) 13) /\
    Frequency.NOTE_NAMES !! (13 mod 12)%nat = Some name /\
    Piano.NOTE_COLORS !! (13 mod 16)%nat = Some color /\
    Frequency.chromatic name /\
    forall octave, 0 <= octave <= 10 ->
      (0 < Frequency.getNoteFrequency name octave)%R.
Proof. apply (X3_grid_keys 16 13). lia. Defined.

(** X4.  For every row [row >= 0] of the sequencer grid, [getRowNote]
    is a chromatic name, and the row in which the note block is drawn
    ([rowFromBottom] of that name and of [getRowOctave(row)]) is [row]
    again. *)
Theorem X4_row_round_trip (row : Z) (H : 0 <= row) :
  exists name,
    Piano.getRowNote row = Some name /\
    Frequency.chromatic name /\
    Piano.rowFromBottom name (Piano.getRowOctave row) = row.
Proof.
  unfold Piano.getRowNote, Piano.getRowOctave, Piano.rowFromBottom.
  change (Z.of_nat (length Frequency.NOTE_NAMES)) with 12.
  rewrite Z.rem_mod_nonneg by lia.
  pose proof (Z.mod_pos_bound row 12 ltac:(lia)) as Hm.
  unfold Piano.name_at.
  destruct (Z.ltb_spec (12 - 1 - row mod 12) 0) as [Hneg|_]; [lia|].
  destruct (Piano.name_lookup_lt (Z.to_nat (12 - 1 - row mod 12)))
    as [name Hn]; [lia|].
  exists name. destruct (Piano.name_lookup_chromatic _ _ Hn) as [Hc Hi].
  repeat split; try assumption.
  rewrite Hi. pose proof (Z.div_mod row 12 ltac:(lia)). lia.
Qed.

Lemma X4_row_round_trip_witness :
  exists name,
    Piano.getRowNote 17 = Some name /\
    Frequency.chromatic name /\
    Piano.rowFromBottom name (Piano.getRowOctave 17) = 17.
Proof. apply (X4_row_round_trip 17). lia. Defined.

(** X5.  A click inside the grid (a grid of positive size, a positive
    number of bars and a positive beat division; the element's area
    includes its left and top edges and not its right and bottom ones)
    appends one note and selects it.  The note starts on a beat within
    the pattern ([0 <= startTime < totalBeats]), lasts one beat, has
    velocity 0.7 and a chromatic name; the notes already there are kept.
    Below the top edge the note is in octave 3; a click on the top edge
    itself is computed as row 12 and gives B in octave 4. *)
Theorem X5_click_adds_note_inside_pattern
    (rect : Grid.Rect) (p : Sequencer.Props) (beatDivision clientX clientY : Q)
    (newId : string) (ns : list Sequencer.Note) (sel : option string)
    (Hw : (0 < Grid.rect_width rect)%Q) (Hh : (0 < Grid.rect_height rect)%Q)
    (Hb : (0 < Sequencer.bars p)%Q) (Hd : (0 < beatDivision)%Q)
    (Hx1 : (Grid.rect_left rect <= clientX)%Q)
    (Hx2 : (clientX < Grid.rect_left rect + Grid.rect_width rect)%Q)
    (Hy1 : (Grid.rect_top rect <= clientY)%Q)
    (Hy2 : (clientY < Grid.rect_bottom rect)%Q) :
  exists n,
    Grid.addNote (Some rect) p beatDivision clientX clientY newId (ns, sel)
      = (ns ++ [n], Some newId) /\
    Sequencer.id n = newId /\
    (0 <= Sequencer.startTime n)%Q /\
    (Sequencer.startTime n < Sequencer.totalBeats p)%Q /\
    Sequencer.duration n = 1%Q /\ Sequencer.velocity n = (7 # 10)%Q /\
    Frequency.chromatic (Sequencer.note n) /\
    ((Grid.rect_top rect < clientY)%Q -> Sequencer.octave n = 3) /\
    ((clientY == Grid.rect_top rect)%Q ->
     Sequencer.note n = "B"%string /\ Sequencer.octave n = 4).
Proof.
  destruct (Grid.click_col_range rect p beatDivision clientX Hw Hb Hd Hx1 Hx2)
    as [Hc0 Hc1].
  eexists. split; [reflexivity|]. cbn [Sequencer.id Sequencer.startTime
    Sequencer.duration Sequencer.velocity Sequencer.note Sequencer.octave].
  split; [reflexivity|]. split; [exact Hc0|]. split; [exact Hc1|].
  split; [reflexivity|]. split; [reflexivity|].
  destruct (Qlt_le_dec (Grid.rect_top rect) clientY) as [Hlt|Hle].
  - assert (Hy2' : (clientY <= Grid.rect_bottom rect)%Q) by lra.
    pose proof (Grid.click_row_range rect clientY Hh Hlt Hy2') as Hrow.
    destruct (Grid.row_in_first_octave _ Hrow) as (name & Hn & Hchr & _ & Ho).
    rewrite Hn, Ho. simpl. split; [exact Hchr|]. split; [reflexivity|].
    intros Heq. exfalso. lra.
  - assert (Heq : (clientY == Grid.rect_top rect)%Q) by lra.
    rewrite (Grid.click_row_top rect clientY Hh Heq).
    destruct Grid.row_12 as [-> ->]. simpl.
    split; [apply (Frequency.nth_chromatic 11); reflexivity|].
    split; [intros Hlt; exfalso; lra|]. intros _. split; reflexivity.
Qed.

Lemma X5_click_adds_note_inside_pattern_witness :
  exists n,
    Grid.addNote (Some (Grid.mkRect 0 0 640 400)) Scenario.props120 4 100 0
      "note-9" ([], None) = ([] ++ [n], Some "note-9"%string) /\
    Sequencer.id n = "note-9"%string /\
    (0 <= Sequencer.startTime n)%Q /\
    (Sequencer.startTime n < Sequencer.totalBeats Scenario.props120)%Q /\
    Sequencer.duration n = 1%Q /\ Sequencer.velocity n = (7 # 10)%Q /\
    Frequency.chromatic (Sequencer.note n) /\
    ((Grid.rect_top (Grid.mkRect 0 0 640 400) < 0)%Q -> Sequencer.octave n = 3) /\
    ((0 == Grid.rect_top (Grid.mkRect 0 0 640 400))%Q ->
     Sequencer.note n = "B"%string /\ Sequencer.octave n = 4).
Proof.
  apply (X5_click_adds_note_inside_pattern (Grid.mkRect 0 0 640 400)
           Scenario.props120 4 100 0 "note-9" [] None);
    vm_compute; congruence.
Defined.

(** X6.  Whatever the user and the host do (clicks on play / pause,
    timer ticks, frames, ended oscillators, previews, edits, new
    props), the component never has more than one interval timer, has
    none while stopped, and the one it has is the one recorded in
    [schedulerIntervalRef]: pressing play never leaves two schedulers
    running. *)
Theorem X6_at_most_one_scheduler
    (p : Sequencer.Props) (ns : list Sequencer.Note) (es : list Sequencer.Event) :
  let st := Sequencer.run es (Sequencer.initial p ns) in
  (length (Sequencer.intervals st) <= 1)%nat /\
  (Sequencer.isPlaying st = false -> Sequencer.intervals st = []) /\
  Forall (fun e => Sequencer.schedulerIntervalRef st = Some (fst e))
    (Sequencer.intervals st).
Proof.
  intros st.
  destruct (SequencerFacts.run_one_timer es _
              (SequencerFacts.initial_one_timer p ns)) as [[Hall Hstop] Hlen].
  fold st in Hall, Hstop, Hlen. tauto.
Qed.

(** X7.  In any state the component can reach while playing, pressing
    the button stops it: no interval timer is left, the refs are
    cleared, the [oscillators] map is empty, and whatever timer, frame
    or [onended] callbacks still run afterwards, no further request
    reaches the audio sink. *)
Theorem X7_no_dispatch_after_stop
    (p : Sequencer.Props) (ns : list Sequencer.Note)
    (es later : list Sequencer.Event) (now : Q)
    (Hplaying : Sequencer.isPlaying (Sequencer.run es (Sequencer.initial p ns)) = true)
    (Hlater : forallb Sequencer.timer_event later = true) :
  let st := Sequencer.run es (Sequencer.initial p ns) in
  let st' := Sequencer.step (Sequencer.Toggle now) st in
  Sequencer.isPlaying st' = false /\ Sequencer.intervals st' = [] /\
  Sequencer.schedulerIntervalRef st' = None /\ Sequencer.rafRef st' = None /\
  Sequencer.oscillators st' = ∅ /\
  length (Sequencer.voices (Sequencer.run later st')) = length (Sequencer.voices st).
Proof.
  intros st st'.
  assert (Ht : Sequencer.tracked st)
    by (apply Sequencer.run_tracked, Sequencer.initial_tracked).
  assert (E : st' = Sequencer.stopSequencer now st).
  { unfold st'. cbn [Sequencer.step].
    unfold Sequencer.togglePlay, Sequencer.render. cbn [Sequencer.r_isPlaying].
    unfold st. now rewrite Hplaying. }
  destruct (Sequencer.stopSequencer_clears now st Ht)
    as (H1 & H2 & H3 & H4 & H5 & H6 & _).
  rewrite E. repeat split; try assumption.
  destruct (Sequencer.no_timer_no_dispatch later _ H2 Hlater) as [_ ->].
  exact H6.
Qed.

Lemma X7_no_dispatch_after_stop_witness :
  let st := Sequencer.run [Sequencer.Toggle 0; Sequencer.Tick 2 1]
              (Sequencer.initial Scenario.props120 [Scenario.on_beat2]) in
  let st' := Sequencer.step (Sequencer.Toggle (12 # 10)) st in
  length (Sequencer.voices
            (Sequencer.run [Sequencer.Tick 2 (13 # 10); Sequencer.Frame 1 (13 # 10);
                            Sequencer.Ended 0] st'))
  = length (Sequencer.voices st).
Proof.
  exact (proj2 (proj2 (proj2 (proj2 (proj2
    (X7_no_dispatch_after_stop Scenario.props120 [Scenario.on_beat2]
       [Sequencer.Toggle 0; Sequencer.Tick 2 1]
       [Sequencer.Tick 2 (13 # 10); Sequencer.Frame 1 (13 # 10); Sequencer.Ended 0]
       (12 # 10) eq_refl eq_refl)))))).
Defined.

(** X8.  The playhead never moves.  [startSequencer] hands
    [requestAnimationFrame] the [playStep] of a render in which
    [isPlaying] is false, so the guard of every frame callback fails: in
    every reachable state [rafRef] is null, [currentBeat] is 0 and every
    pending frame callback belongs to such a render. *)
Theorem X8_playhead_never_moves
    (p : Sequencer.Props) (ns : list Sequencer.Note) (es : list Sequencer.Event) :
  let st := Sequencer.run es (Sequencer.initial p ns) in
  Sequencer.rafRef st = None /\ Sequencer.currentBeat st = 0%Q /\
  Forall (fun e => Sequencer.r_isPlaying (snd e) = false) (Sequencer.frames st).
Proof.
  intros st.
  exact (SequencerFacts.run_frozen es _ (SequencerFacts.initial_frozen p ns)).
Qed.

(** X9.  Without an audio graph nothing is ever sent to the sink: when
    [audioContext] or [gainNode] is null and stays so, no run of events
    creates an oscillator; and when [audioContext] is null, pressing
    play does not even start playback. *)
Theorem X9_no_audio_graph_no_sound
    (p : Sequencer.Props) (ns : list Sequencer.Note) (es : list Sequencer.Event)
    (Hnull : Sequencer.audioContext p && Sequencer.gainNode p = false)
    (Hprops : forallb (fun e => negb (SequencerFacts.is_SetProps e)) es = true) :
  let st := Sequencer.run es (Sequencer.initial p ns) in
  Sequencer.voices st = [] /\
  (Sequencer.audioContext p = false ->
   Sequencer.isPlaying st = false /\ Sequencer.intervals st = []).
Proof.
  intros st.
  assert (Hinit : SequencerFacts.under p (Sequencer.initial p ns))
    by (repeat split; constructor).
  destruct (SequencerFacts.run_silent p es _ Hnull Hprops Hinit) as (Hl & Hstop).
  split.
  - fold st in Hl. simpl in Hl. now destruct (Sequencer.voices st).
  - intros Ha. now apply Hstop.
Qed.

Lemma X9_no_audio_graph_no_sound_witness :
  Sequencer.voices
    (Sequencer.run [Sequencer.Toggle 0; Sequencer.Tick 2 1; Sequencer.Preview 0 1]
       (Sequencer.initial (Sequencer.mkProps true false 120 1) [Scenario.on_beat2]))
  = [].
Proof.
  exact (proj1 (X9_no_audio_graph_no_sound (Sequencer.mkProps true false 120 1)
                  [Scenario.on_beat2]
                  [Sequencer.Toggle 0; Sequencer.Tick 2 1; Sequencer.Preview 0 1]
                  eq_refl eq_refl)).
Defined.

(** X10.  With the audio graph ready, a scheduler tick at audio time
    [now] appends to the sink, in pattern order, exactly one oscillator
    for each note of the pattern whose start, the double computed as
    [startTime * (60000 / bpm) / 1000], passes the two comparisons of
    the window test against [now] and [now + 0.1]; each starts at that
    computed time and is stopped 0.05 s after its computed end; no other
    note is dispatched.  The arithmetic is that of doubles: a start that
    rounds below the clock reading is not dispatched
    ([Doubles.window_at_112]), and at a tempo of 0 nothing is
    ([Doubles.window_at_tempo_0]). *)
Theorem X10_tick_dispatches_due_notes
    (p : Doubles.Props) (notes : list Doubles.Note) (now : float)
    (s : Doubles.Sink)
    (Hcontext : Doubles.audioContext p = true)
    (Hgain : Doubles.gainNode p = true) :
  Doubles.voices (Doubles.scheduleNotes p notes now s) =
    Doubles.voices s ++
    map (Doubles.scheduled_voice p) (Doubles.due p now notes) /\
  (forall n, In n (Doubles.due p now notes) <->
     In n notes /\
     (now <=? Doubles.startTime n * (60000 / Doubles.bpm p) / 1000)%float = true /\
     (Doubles.startTime n * (60000 / Doubles.bpm p) / 1000 <? now + 0.1)%float
       = true) /\
  (forall n,
     Doubles.osc_start (Doubles.scheduled_voice p n) =
       (Doubles.startTime n * (60000 / Doubles.bpm p) / 1000)%float /\
     Doubles.osc_stop (Doubles.scheduled_voice p n) =
       (Doubles.startTime n * (60000 / Doubles.bpm p) / 1000
        + Doubles.duration n * (60000 / Doubles.bpm p) / 1000 + 0.05)%float).
Proof.
  split; [|split].
  - unfold Doubles.scheduleNotes. rewrite Hcontext, Hgain. simpl.
    now apply Doubles.scheduleNotes_doubles_loop.
  - intros n. unfold Doubles.due. rewrite filter_In.
    unfold Doubles.in_window. rewrite andb_true_iff. reflexivity.
  - intros n. split; reflexivity.
Qed.

Lemma X10_tick_dispatches_due_notes_witness :
  let p := Doubles.mkProps true true 112 in
  let notes := [Doubles.on_beat 0; Doubles.on_beat 7; Doubles.on_beat 8] in
  Doubles.voices
    (Doubles.scheduleNotes p notes 3.7 (Doubles.mkSink [] ∅))
  = [] ++ map (Doubles.scheduled_voice p) (Doubles.due p 3.7 notes).
Proof.
  exact (proj1 (X10_tick_dispatches_due_notes
                  (Doubles.mkProps true true 112)
                  [Doubles.on_beat 0; Doubles.on_beat 7; Doubles.on_beat 8]
                  3.7 (Doubles.mkSink [] ∅) eq_refl eq_refl)).
Defined.

(** X11.  Two ticks of the same scheduler that are at least 100 ms
    apart on the audio clock never both dispatch the same note: the
    look-ahead windows of such ticks do not overlap. *)
Theorem X11_spaced_ticks_do_not_repeat
    (env : Sequencer.Render) (t1 t2 : Q) (n : Sequencer.Note)
    (Hgap : (t1 + (1 # 10) <= t2)%Q)
    (H1 : Sequencer.in_window env t1 n = true) :
  Sequencer.in_window env t2 n = false /\
  ~ In n (Sequencer.due env t2).
Proof.
  assert (H2 : Sequencer.in_window env t2 n = false)
    by (apply (SequencerFacts.windows_disjoint env t1 t2 n); assumption).
  split; [exact H2|].
  unfold Sequencer.due. rewrite filter_In. intros [_ H]. congruence.
Qed.

Lemma X11_spaced_ticks_do_not_repeat_witness :
  let env := Sequencer.mkRender Scenario.props120 [Scenario.on_beat2] false in
  Sequencer.in_window env (95 # 100) Scenario.on_beat2 = true /\
  Sequencer.in_window env (105 # 100) Scenario.on_beat2 = false.
Proof.
  split; [reflexivity|].
  apply (X11_spaced_ticks_do_not_repeat
           (Sequencer.mkRender Scenario.props120 [Scenario.on_beat2] false)
           (95 # 100) (105 # 100) Scenario.on_beat2);
    vm_compute; congruence.
Defined.

(** X12.  [stopAllNotes] stops and disconnects every oscillator that is
    recorded in the [oscillators] map and empties the map: such an
    oscillator does not sound at any time from the call on. *)
Theorem X12_stopAllNotes_silences_recorded
    (now : Q) (st : Sequencer.State) (k : string) (o : nat) (v : Sequencer.Voice)
    (Hk : Sequencer.oscillators st !! k = Some o)
    (Hv : Sequencer.voices st !! o = Some v) :
  Sequencer.oscillators (Sequencer.stopAllNotes now st) = ∅ /\
  exists v',
    Sequencer.voices (Sequencer.stopAllNotes now st) !! o = Some v' /\
    Sequencer.osc_connected v' = false /\
    Sequencer.osc_stopped v' = Some now /\
    forall t, (now <= t)%Q -> Sequencer.sounding t v' = false.
Proof.
  split; [reflexivity|].
  exists (Sequencer.stop_voice now v). split.
  - now apply (SequencerFacts.stopAllNotes_tracked now st k o v).
  - repeat split. intros t Ht. now apply SequencerFacts.stopped_is_silent.
Qed.

Lemma X12_stopAllNotes_silences_recorded_witness :
  let st := Sequencer.run [Sequencer.Toggle 0; Sequencer.Tick 2 1]
              (Sequencer.initial Scenario.props120 [Scenario.on_beat2]) in
  Sequencer.oscillators st !! "note-2"%string = Some 0%nat /\
  Sequencer.oscillators (Sequencer.stopAllNotes (12 # 10) st) = ∅.
Proof.
  intros st.
  assert (Hk : Sequencer.oscillators st !! "note-2"%string = Some 0%nat)
    by (vm_compute; reflexivity).
  split; [exact Hk|].
  exact (proj1 (X12_stopAllNotes_silences_recorded (12 # 10) st "note-2" 0
                  (Sequencer.scheduled_voice
                     (Sequencer.render
                        (Sequencer.initial Scenario.props120 [Scenario.on_beat2]))
                     Scenario.on_beat2)
                  Hk eq_refl)).
Defined.

(** X13.  A running scheduler plays the pattern and tempo of the render
    in which play was pressed: changing the notes or the props
    afterwards does not change what its next tick dispatches. *)
Theorem X13_edits_not_heard_until_restart
    (h : nat) (now : Q) (st : Sequencer.State)
    (l : list Sequencer.Note) (p : Sequencer.Props) :
  Sequencer.voices
    (Sequencer.step (Sequencer.Tick h now)
       (Sequencer.step (Sequencer.SetProps p)
          (Sequencer.step (Sequencer.SetNotes l) st)))
  = Sequencer.voices (Sequencer.step (Sequencer.Tick h now) st).
Proof. apply SequencerFacts.tick_ignores_edits. Qed.

(** X14.  When attack, decay and release are positive and fit into the
    duration, the gain curve that the sequencer's five automation calls
    produce is the envelope: 0 at the start, the peak after the attack,
    peak * sustain after the decay and until the release begins, and 0
    at the end of the note. *)
Theorem X14_sequencer_gain_curve
    (v : Q) (env : Sequencer.ADSREnvelope) (start d : Q)
    (Ha : (0 < Sequencer.attack env)%Q) (Hd : (0 < Sequencer.decay env)%Q)
    (Hr : (0 < Sequencer.release env)%Q)
    (Hfit : (Sequencer.attack env + Sequencer.decay env
             <= d - Sequencer.release env)%Q) :
  (Sequencer.curve (Sequencer.applyEnvelope v env start d) start start == 0)%Q /\
  (Sequencer.curve (Sequencer.applyEnvelope v env start d) start
     (start + Sequencer.attack env) == v)%Q /\
  (Sequencer.curve (Sequencer.applyEnvelope v env start d) start
     (start + Sequencer.attack env + Sequencer.decay env)
   == v * Sequencer.sustain env)%Q /\
  (forall t, (start + Sequencer.attack env + Sequencer.decay env <= t)%Q ->
             (t < start + d - Sequencer.release env)%Q ->
             (Sequencer.curve (Sequencer.applyEnvelope v env start d) start t
              == v * Sequencer.sustain env)%Q) /\
  (Sequencer.curve (Sequencer.applyEnvelope v env start d) start (start + d) == 0)%Q.
Proof. now apply Sequencer.curve_ordered. Qed.

Lemma X14_sequencer_gain_curve_witness :
  (Sequencer.curve
     (Sequencer.applyEnvelope (7 # 10) Sequencer.playNote_envelope 1 (1 # 2)) 1
     (1 + Sequencer.attack Sequencer.playNote_envelope) == 7 # 10)%Q.
Proof.
  refine (proj1 (proj2 (X14_sequencer_gain_curve (7 # 10)
            Sequencer.playNote_envelope 1 (1 # 2) _ _ _ _)));
    vm_compute; congruence.
Defined.

(** X15.  The soundboard's synthesizer, for any non-negative envelope:
    the sink keeps its four automation calls in program order, the
    oscillator is stopped 0.1 s after the release ends, and (for
    positive attack, decay and release) the gain is 0 at the start,
    [volume] after the attack, [volume * sustain] after the decay and
    0.001, not 0, from the end of the release until the oscillator
    stops. *)
Theorem X15_soundboard_gain_curve
    (octave : Z) (volume : Q) (waveType : string)
    (env : Sequencer.ADSREnvelope) (now : Q) (note : string)
    (Ha : (0 < Sequencer.attack env)%Q) (Hd : (0 < Sequencer.decay env)%Q)
    (Hr : (0 < Sequencer.release env)%Q) :
  let v := Soundboard.playSynthesizedSound octave volume waveType env now note
             None None in
  let g := Sequencer.curve (Soundboard.sv_gain v) (Soundboard.sv_start v) in
  Sequencer.timeline (Soundboard.sv_gain v) = Soundboard.sv_gain v /\
  (Soundboard.sv_stop v ==
     now + Sequencer.attack env + Sequencer.decay env + Sequencer.release env
     + (1 # 10))%Q /\
  (g now == 0)%Q /\
  (g (now + Sequencer.attack env) == volume)%Q /\
  (g (now + Sequencer.attack env + Sequencer.decay env)
   == volume * Sequencer.sustain env)%Q /\
  (forall t,
     (now + Sequencer.attack env + Sequencer.decay env + Sequencer.release env
      <= t)%Q ->
     (g t == 1 # 1000)%Q).
Proof.
  intros v g.
  assert (Ht : Sequencer.timeline (Soundboard.sv_gain v) = Soundboard.sv_gain v)
    by (apply Soundboard.synth_timeline_ordered; simpl; lra).
  split; [exact Ht|]. split; [simpl; ring|].
  unfold g, Sequencer.curve. rewrite Ht. simpl.
  repeat split.
  - rewrite Sequencer.Qltb_false by lra. rewrite Sequencer.Qltb_true by lra.
    field. lra.
  - rewrite Sequencer.Qltb_false by lra. rewrite Sequencer.Qltb_false by lra.
    rewrite Sequencer.Qltb_true by lra. field. lra.
  - do 3 rewrite Sequencer.Qltb_false by lra.
    rewrite Sequencer.Qltb_true by lra. field. lra.
  - intros t Hle. now do 4 rewrite Sequencer.Qltb_false by lra.
Qed.

Lemma X15_soundboard_gain_curve_witness :
  let v := Soundboard.playSynthesizedSound 4 (3 # 4) "sine"
             (Sequencer.mkEnvelope (2 # 100) (2 # 10) (6 # 10) (5 # 10)) 0 "A"
             None None in
  Sequencer.timeline (Soundboard.sv_gain v) = Soundboard.sv_gain v.
Proof.
  refine (proj1 (X15_soundboard_gain_curve 4 (3 # 4) "sine"
            (Sequencer.mkEnvelope (2 # 100) (2 # 10) (6 # 10) (5 # 10)) 0 "A"
            _ _ _));
    vm_compute; congruence.
Defined.

(** X16.  The soundboard's octave stays between 1 and 7: from an octave
    in that range, every request through [handleOctaveChange] and every
    press of the minus and plus buttons leaves it in the range; a
    request outside 1..7 changes nothing, and plus followed by minus
    (when plus is enabled) gives back the octave. *)
Theorem X16_octave_stays_in_range
    (octave : Z) (requests : list Z) (presses : list Soundboard.Button)
    (H : 1 <= octave <= 7) :
  1 <= fold_left (fun o r => Soundboard.handleOctaveChange r o) requests octave <= 7 /\
  1 <= fold_left (fun o b => Soundboard.press b o) presses octave <= 7 /\
  (forall r, r < 1 \/ 7 < r -> Soundboard.handleOctaveChange r octave = octave) /\
  (octave < 7 ->
   Soundboard.press Soundboard.Minus (Soundboard.press Soundboard.Plus octave) = octave).
Proof.
  split; [|split; [|split]].
  - revert octave H. induction requests as [|r l IH]; intros o Ho; [exact Ho|].
    simpl. apply IH. now apply Soundboard.handleOctaveChange_range.
  - revert octave H. induction presses as [|b l IH]; intros o Ho; [exact Ho|].
    simpl. apply IH. now apply Soundboard.press_range.
  - intros r Hr. unfold Soundboard.handleOctaveChange.
    destruct (Z.leb_spec 1 r), (Z.leb_spec r 7); simpl; try reflexivity; lia.
  - intros Hlt. unfold Soundboard.press, Soundboard.handleOctaveChange.
    destruct (Z.leb_spec 7 octave); [lia|].
    destruct (Z.leb_spec 1 (octave + 1)); [|lia].
    destruct (Z.leb_spec (octave + 1) 7); [|lia]. simpl.
    destruct (Z.leb_spec (octave + 1) 1); [lia|].
    replace (octave + 1 - 1) with octave by lia.
    destruct (Z.leb_spec 1 octave); [|lia].
    destruct (Z.leb_spec octave 7); [|lia]. reflexivity.
Qed.

Lemma X16_octave_stays_in_range_witness :
  1 <= fold_left (fun o r => Soundboard.handleOctaveChange r o) [5; 9; 0; 7] 4 <= 7.
Proof.
  refine (proj1 (X16_octave_stays_in_range 4 [5; 9; 0; 7] [] _)). lia.
Defined.



(** X18.  Once [stopRecording] has run, the buffer is frozen: a further
    [addNoteToRecording], a further add-note event and a further note
    played on the soundboard leave the state as it is.  The buffer that
    went to the completion callback is the one still shown. *)
Theorem X18_buffer_frozen_after_stop
    (st : Recorder.State) (n : string) (o now : Z) (x : Recorder.Note) :
  let s := Recorder.stopRecording st in
  Recorder.addNoteToRecording n o now s = s /\
  Recorder.handleNoteAdded x s = s /\
  Recorder.recordNoteIfRecording n now s = s /\
  Recorder.recordedNotes s = Recorder.recordedNotes st /\
  List.last (Recorder.completed s) [] = Recorder.recordedNotes st.
Proof.
  intros s.
  destruct (Recorder.stopRecording_delivers st) as (Hc & Hb & Hr).
  destruct (RecorderFacts.stopRecording_soundboard st) as (Hs & _ & _).
  fold s in Hc, Hb, Hr, Hs.
  repeat split.
  - now apply Recorder.addNoteToRecording_idle.
  - now apply RecorderFacts.handleNoteAdded_idle.
  - now apply RecorderFacts.recordNoteIfRecording_idle.
  - exact Hb.
  - rewrite Hc. apply List.last_last.
Qed.

(** X19.  The guards test the start timestamp for truthiness.  When
    the clock reads 0 at [startRecording], the recorder shows itself
    recording, but every note notification is dropped on both paths and
    stopping delivers an empty buffer. *)
Theorem X19_clock_zero_records_nothing
    (st : Recorder.State) (played : list (string * Z)) (n : string) (o now : Z) :
  let s := Recorder.startRecording 0 st in
  Recorder.isRecording s = true /\
  Recorder.addNoteToRecording n o now s = s /\
  RecorderFacts.play_all played s = s /\
  List.last
    (Recorder.completed (Recorder.stopRecording (RecorderFacts.play_all played s))) []
  = [].
Proof.
  intros s.
  destruct (RecorderFacts.startRecording_zero st) as (H1 & H2 & H3).
  destruct (Recorder.startRecording_buffer 0 st) as (Hr & _).
  fold s in H1, H2, H3, Hr.
  assert (Hp : RecorderFacts.play_all played s = s).
  { induction played as [|e l IH]; [reflexivity|].
    rewrite RecorderFacts.play_all_cons.
    now rewrite (RecorderFacts.recordNoteIfRecording_start0 _ _ s H2). }
  repeat split; try assumption.
  - now apply Recorder.addNoteToRecording_start0.
  - rewrite Hp. destruct (Recorder.stopRecording_delivers s) as (-> & _).
    rewrite H3. apply List.last_last.
Qed.

(** X20.  Right after Record the recorder's own intervals are
    cancelled.  From an idle recorder, with "Enable metronome during
    recording" switched on, an audio context present and the metronome
    not yet running, [startRecording] creates the recording timer and
    the metronome interval; the render that follows changes
    [isRecording], so React runs the cleanup that the idle render left
    for the effect on [isRecording], and that cleanup clears both
    intervals.  Afterwards the recorder is recording, the metronome
    counts as playing and both refs still hold their handles, but
    neither interval is active and no interval is active that was not
    before; stopping the recording leaves the metronome marked as
    playing. *)
Theorem X20_intervals_cleared_after_record
    (now : Z) (st : Recorder.State)
    (Hidle : Recorder.isRecording st = false)
    (Haudio : Recorder.audioContext st = true)
    (Henabled : Recorder.metronomeEnabled st = true)
    (Hquiet : Recorder.isMetronomePlaying st = false) :
  let s1 := Recorder.startRecording now st in
  let s2 := Recorder.stopRecording s1 in
  Recorder.isRecording s1 = true /\
  Recorder.isMetronomePlaying s1 = true /\
  Recorder.recordingTimerRef s1 = Some (Recorder.next_handle st) /\
  Recorder.metronomeIntervalRef s1 = Some (S (Recorder.next_handle st)) /\
  ~ In (Recorder.next_handle st) (Recorder.timers s1) /\
  ~ In (S (Recorder.next_handle st)) (Recorder.timers s1) /\
  (forall h, In h (Recorder.timers s1) -> In h (Recorder.timers st)) /\
  Recorder.isRecording s2 = false /\
  Recorder.isMetronomePlaying s2 = true /\
  (forall h, In h (Recorder.timers s2) -> In h (Recorder.timers st)).
Proof.
  destruct st as [audio rec buf start tempo enabled playing mref rtime rref
                    oct sbrec sbseq sbstart glob tms nh done].
  simpl in Hidle, Haudio, Henabled, Hquiet. subst rec audio enabled playing.
  cbn -[List.filter].
  assert (Hin : forall h,
            In h (List.filter (fun k => negb (k =? nh)%nat)
                    (List.filter (fun k => negb (k =? S nh)%nat)
                       ((tms ++ [nh]) ++ [S nh]))) <->
            In h tms /\ h <> nh /\ h <> S nh).
  { intros h. rewrite !filter_In, !negb_true_iff, !Nat.eqb_neq, !in_app_iff.
    simpl. split.
    - intros [[[[H|[H|[]]]|[H|[]]] H1] H2]; try (symmetry in H; contradiction).
      tauto.
    - tauto. }
  repeat split.
  - intros H. apply Hin in H. lia.
  - intros H. apply Hin in H. lia.
  - intros h H. now apply Hin in H.
  - intros h H. apply filter_In in H. destruct H as [H _].
    now apply Hin in H.
Qed.

Lemma X20_intervals_cleared_after_record_witness :
  let st := Recorder.mkState true false [] None 120 true false None 0 None
              4 false [] None None [] 1 [] in
  let s1 := Recorder.startRecording 1700000000000 st in
  Recorder.isRecording s1 = true /\
  Recorder.isMetronomePlaying s1 = true /\
  Recorder.recordingTimerRef s1 = Some 1%nat /\
  Recorder.metronomeIntervalRef s1 = Some 2%nat /\
  ~ In 1%nat (Recorder.timers s1) /\
  ~ In 2%nat (Recorder.timers s1).
Proof.
  intros st s1.
  destruct (X20_intervals_cleared_after_record 1700000000000 st
              eq_refl eq_refl eq_refl eq_refl)
    as (H1 & H2 & H3 & H4 & H5 & H6 & _).
  repeat split; assumption.
Defined.

(** X21.  In a store reached by method calls the counters are ahead of
    every identifier in use, so a create method never overwrites a
    record: [createSoundPack] stores the new pack under a fresh id,
    reading it back returns it, it starts with no downloads and rating
    0, and every pack, sound, review and purchase stored before a
    create call of its kind is still stored unchanged after it. *)
Theorem X21_create_never_overwrites (s : Storage.Store) (now : Z)
    (Hs : Storage.reachable s) :
  (forall ins,
     let pack := fst (Storage.createSoundPack ins now s) in
     let s' := snd (Storage.createSoundPack ins now s) in
     Storage.soundPacks s !! Storage.sp_id pack = None /\
     Storage.getSoundPack (Storage.sp_id pack) s' = Some pack /\
     Storage.sp_downloads pack = 0 /\ Storage.sp_rating pack = 0 /\
     forall k p, Storage.soundPacks s !! k = Some p ->
                 Storage.soundPacks s' !! k = Some p) /\
  (forall ins k x, Storage.sounds s !! k = Some x ->
     Storage.sounds (snd (Storage.createSound ins now s)) !! k = Some x) /\
  (forall ins k x, Storage.reviews s !! k = Some x ->
     Storage.reviews (snd (Storage.createReview ins now s)) !! k = Some x) /\
  (forall ins k x, Storage.purchases s !! k = Some x ->
     Storage.purchases (snd (Storage.createPurchase ins now s)) !! k = Some x) /\
  (forall ins k x, Storage.users s !! k = Some x ->
     Storage.users (snd (Storage.createUser ins now s)) !! k = Some x).
Proof.
  destruct (StorageFacts.reachable_counters_fresh s Hs)
    as (Hu & Hp & Hso & Hr & Hb).
  assert (Hfresh : forall A (m : gmap Z A) c, StorageFacts.below m c -> m !! c = None).
  { intros A m c H. destruct (m !! c) eqn:E; [|reflexivity].
    assert (c < c) by (apply H; rewrite E; eauto). lia. }
  assert (Hkeep : forall A (m : gmap Z A) c y k x,
             StorageFacts.below m c -> m !! k = Some x -> <[c := y]> m !! k = Some x).
  { intros A m c y k x H Hk. rewrite lookup_insert_ne; [exact Hk|].
    intros ->. rewrite (Hfresh _ _ _ H) in Hk. discriminate Hk. }
  split; [|split; [|split; [|split]]].
  - intros ins pack s'. unfold pack, s'. simpl.
    split; [now apply Hfresh|]. split; [apply lookup_insert_eq|].
    repeat split. intros k p Hk. now apply Hkeep.
  - intros ins k x Hk. simpl. now apply Hkeep.
  - intros ins k x Hk.
    unfold Storage.createReview. cbv zeta. cbn [snd].
    rewrite StorageFacts.updateSoundPack_shape. simpl. now apply Hkeep.
  - intros ins k x Hk. rewrite StorageFacts.createPurchase_purchases.
    now apply Hkeep.
  - intros ins k x Hk. simpl. now apply Hkeep.
Qed.

Lemma X21_create_never_overwrites_witness :
  let s := snd (Storage.createSoundPack Scenario.grand 10 Storage.empty_store) in
  Storage.reachable s /\
  Storage.soundPacks (snd (Storage.createSoundPack Scenario.grand 20 s)) !! 1
  = Some (Storage.mkSoundPack 1 "Grand" (Some "A grand piano"%string) 1 499 true
            0 0 None 10 10).
Proof.
  intros s.
  assert (Hs : Storage.reachable s)
    by exact (Storage.reach_call (Storage.CreateSoundPack Scenario.grand) 10 _
                Storage.reach_empty).
  split; [exact Hs|].
  exact (proj2 (proj2 (proj2 (proj2
           (proj1 (X21_create_never_overwrites s 20 Hs) Scenario.grand))))
           1 _ eq_refl).
Defined.

(** X22.  Deleting a pack cascades to its sounds and to nothing else.
    In a reachable store, after [deleteSoundPack(id)] the pack is gone,
    no stored sound has [packId = id], every sound of another pack is
    still stored, and users, reviews and purchases are untouched; the
    result tells whether the pack existed. *)
Theorem X22_delete_pack_cascades_to_sounds (s : Storage.Store) (id : Z)
    (Hs : Storage.reachable s) :
  let s' := snd (Storage.deleteSoundPack id s) in
  fst (Storage.deleteSoundPack id s)
    = bool_decide (is_Some (Storage.soundPacks s !! id)) /\
  Storage.soundPacks s' !! id = None /\
  (forall k, k <> id -> Storage.soundPacks s' !! k = Storage.soundPacks s !! k) /\
  Storage.getSoundsByPackId id s' = [] /\
  (forall k x, Storage.sounds s' !! k = Some x <->
     Storage.sounds s !! k = Some x /\ Storage.s_packId x <> id) /\
  Storage.users s' = Storage.users s /\
  Storage.reviews s' = Storage.reviews s /\
  Storage.purchases s' = Storage.purchases s.
Proof.
  intros s'. pose proof (StorageFacts.reachable_sound_ids s Hs) as Hids.
  assert (Hsounds : forall k x, Storage.sounds s' !! k = Some x <->
            Storage.sounds s !! k = Some x /\ Storage.s_packId x <> id).
  { intros k x. unfold s'. rewrite StorageFacts.deleteSoundPack_shape. simpl.
    rewrite StorageFacts.del_keys_lookup.
    case_bool_decide as Hin.
    - split; [discriminate|]. intros [Hk Hne]. exfalso.
      apply list_elem_of_In, in_map_iff in Hin.
      destruct Hin as (y & Hy & Hyin).
      apply filter_In in Hyin. destruct Hyin as [Hyv Hyp].
      apply StorageFacts.elem_of_values in Hyv. destruct Hyv as [k' Hk'].
      pose proof (Hids _ _ Hk') as E. rewrite Hy in E. subst k'.
      rewrite Hk in Hk'. injection Hk' as ->. lia.
    - split.
      + intros Hk. split; [exact Hk|]. intros Hp. apply Hin.
        apply list_elem_of_In, in_map_iff. exists x.
        split; [now apply Hids|]. apply filter_In. split; [|lia].
        apply StorageFacts.elem_of_values. eauto.
      + now intros [Hk _]. }
  assert (Eshape : s' =
            Storage.with_soundPacks (delete id (Storage.soundPacks s))
              (Storage.soundPackIdCounter s)
              (Storage.with_sounds
                 (StorageFacts.del_keys
                    (map Storage.s_id (Storage.getSoundsByPackId id s))
                    (Storage.sounds s))
                 (Storage.soundIdCounter s) s))
    by apply StorageFacts.deleteSoundPack_shape.
  split; [apply StorageFacts.deleteSoundPack_result|].
  split; [rewrite Eshape; apply lookup_delete_eq|].
  split; [intros k Hk; rewrite Eshape; now apply lookup_delete_ne|].
  split; [|split; [exact Hsounds|rewrite Eshape; repeat split]].
  unfold Storage.getSoundsByPackId.
  destruct (List.filter _ _) as [|y l] eqn:E; [reflexivity|].
  assert (Hy : In y (List.filter (fun sound => Storage.s_packId sound =? id)
                       (Storage.values (Storage.sounds s'))))
    by (rewrite E; now left).
  apply filter_In in Hy. destruct Hy as [Hyv Hyp].
  apply StorageFacts.elem_of_values in Hyv. destruct Hyv as [k Hk].
  apply Hsounds in Hk. destruct Hk as [_ Hne]. lia.
Qed.

Lemma X22_delete_pack_cascades_to_sounds_witness :
  let s := snd (Storage.createSound
                  (Storage.mkInsertSound 1 "Middle C" "C" (Some 4) None None None) 20
                  (snd (Storage.createSoundPack Scenario.grand 10 Storage.empty_store))) in
  Storage.reachable s /\
  Storage.getSoundsByPackId 1 (snd (Storage.deleteSoundPack 1 s)) = [].
Proof.
  intros s.
  assert (Hs : Storage.reachable s).
  { apply (Storage.reach_call (Storage.CreateSound _) 20).
    apply (Storage.reach_call (Storage.CreateSoundPack Scenario.grand) 10).
    apply Storage.reach_empty. }
  split; [exact Hs|].
  exact (proj1 (proj2 (proj2 (proj2
           (X22_delete_pack_cascades_to_sounds s 1 Hs))))).
Defined.

(** X23.  Fields a client cannot set through [updateSoundPack]: whatever
    the update object holds, a stored pack keeps its key as [id] and
    gets the current time as [updatedAt]; reading the pack back returns
    the value the call returned; the other fields come from the update
    where it has them and from the old pack otherwise; other packs are
    untouched.  For an id that is not stored the call returns nothing
    and changes nothing. *)
Theorem X23_update_keeps_id_and_stamps_time
    (s : Storage.Store) (id now : Z) (u : Storage.SoundPackUpdates)
    (p : Storage.SoundPack)
    (Hp : Storage.soundPacks s !! id = Some p) :
  (exists p',
     Storage.updateSoundPack id u now s =
       (Some p', snd (Storage.updateSoundPack id u now s)) /\
     Storage.getSoundPack id (snd (Storage.updateSoundPack id u now s)) = Some p' /\
     Storage.sp_id p' = id /\ Storage.sp_updatedAt p' = now /\
     Storage.sp_name p' = default (Storage.sp_name p) (Storage.up_name u) /\
     Storage.sp_price p' = default (Storage.sp_price p) (Storage.up_price u) /\
     Storage.sp_downloads p' =
       default (Storage.sp_downloads p) (Storage.up_downloads u) /\
     Storage.sp_rating p' = default (Storage.sp_rating p) (Storage.up_rating u) /\
     forall k, k <> id ->
       Storage.soundPacks (snd (Storage.updateSoundPack id u now s)) !! k
       = Storage.soundPacks s !! k) /\
  (forall other, Storage.soundPacks s !! other = None ->
     Storage.updateSoundPack other u now s = (None, s)).
Proof.
  split.
  - unfold Storage.updateSoundPack, Storage.getSoundPack.
    rewrite Hp. simpl. eexists. split; [reflexivity|].
    split; [apply lookup_insert_eq|]. repeat split.
    intros k Hk. now apply lookup_insert_ne.
  - intros other H. unfold Storage.updateSoundPack, Storage.getSoundPack.
    now rewrite H.
Qed.

(** The pack created from [grand] is updated with a new name, and with
    an [id] of 9 and an [updatedAt] of 0 in the update object: it is
    still pack 1 and carries the time of the update. *)
Lemma X23_update_keeps_id_and_stamps_time_witness :
  let s := snd (Storage.createSoundPack Scenario.grand 10 Storage.empty_store) in
  let u := Storage.mkSoundPackUpdates (Some 9) (Some "Upright"%string) None None
             None None None None None None (Some 0) in
  Storage.soundPacks s !! 1 =
    Some (Storage.mkSoundPack 1 "Grand" (Some "A grand piano"%string) 1 499 true
            0 0 None 10 10) /\
  exists p',
    Storage.updateSoundPack 1 u 30 s =
      (Some p', snd (Storage.updateSoundPack 1 u 30 s)) /\
    Storage.getSoundPack 1 (snd (Storage.updateSoundPack 1 u 30 s)) = Some p' /\
    Storage.sp_id p' = 1 /\ Storage.sp_updatedAt p' = 30 /\
    Storage.sp_name p' = "Upright"%string.
Proof.
  intros s u.
  assert (Hp : Storage.soundPacks s !! 1 =
               Some (Storage.mkSoundPack 1 "Grand" (Some "A grand piano"%string)
                       1 499 true 0 0 None 10 10)) by reflexivity.
  split; [exact Hp|].
  destruct (proj1 (X23_update_keeps_id_and_stamps_time s 1 30 u _ Hp))
    as (p' & H1 & H2 & H3 & H4 & H5 & _).
  exists p'. repeat split; assumption.
Defined.





(** X26.  A request that is refused leaves the store as it was.  With
    the validation of the bodies included (whatever the generated
    schemas check of the values), for every route other than the
    deletion of a pack an answer of 400 or 404 comes with an unchanged
    store; a form without a name, without a user or without a price is
    among the refused.  [DELETE /soundpacks/:id] for a pack that is not
    stored answers 404 and leaves packs, reviews, purchases and users
    unchanged. *)
Theorem X26_refused_requests_change_nothing
    (packSchema : Storage.InsertSoundPack -> bool)
    (reviewSchema : Storage.InsertReview -> bool)
    (r : Storage.Incoming) (now : Z) (s : Storage.Store) :
  let answer := Storage.receive packSchema reviewSchema r now s in
  ((forall id, r <> Storage.InDeleteSoundPack id) ->
   400 <= fst answer -> snd answer = s) /\
  (forall form,
     r = Storage.InPostSoundPack form ->
     Storage.f_name form = Storage.Absent \/ Storage.f_userId form = None \/
     Storage.f_price form = None ->
     answer = (400, s)) /\
  (forall id, r = Storage.InDeleteSoundPack id ->
     Storage.soundPacks s !! id = None ->
     fst answer = 404 /\
     Storage.soundPacks (snd answer) = Storage.soundPacks s /\
     Storage.reviews (snd answer) = Storage.reviews s /\
     Storage.purchases (snd answer) = Storage.purchases s /\
     Storage.users (snd answer) = Storage.users s).
Proof.
  cbv zeta. split; [|split].
  - intros Hr Hst. destruct r; cbn [Storage.receive] in *;
      try (apply Storage.handle_refused; [intros ?; discriminate|exact Hst]).
    + destruct (Storage.parse_pack packSchema form); [|reflexivity].
      apply Storage.handle_refused; [intros ?; discriminate|exact Hst].
    + now destruct (Hr id).
    + destruct (Storage.parse_review reviewSchema body); [|reflexivity].
      destruct packId as [packId|]; [|reflexivity].
      apply Storage.handle_refused; [intros ?; discriminate|exact Hst].
  - intros form -> Hmiss. cbn [Storage.receive].
    destruct (Storage.parse_pack packSchema form) as [ins|] eqn:E; [|reflexivity].
    destruct (Storage.parse_pack_requires packSchema form ins E) as (H1 & H2 & H3).
    exfalso. destruct Hmiss as [H|[H|H]]; try congruence.
    rewrite H in H3. unfold Storage.parse_pack in E. rewrite H in E.
    destruct (Storage.f_name form) as [| |name]; try discriminate.
    destruct (Storage.f_description form); try discriminate;
      destruct (Storage.f_userId form); discriminate.
  - intros id -> Hnone. cbn [Storage.receive Storage.handle].
    destruct (Storage.deleteSoundPack id s) as [b s'] eqn:E.
    pose proof (StorageFacts.deleteSoundPack_result id s) as Hb.
    pose proof (StorageFacts.deleteSoundPack_shape id s) as Hshape.
    rewrite E in Hb, Hshape. simpl in Hb, Hshape.
    rewrite bool_decide_eq_false_2 in Hb
      by (rewrite Hnone; intros [x Hx]; discriminate Hx).
    subst b. simpl. rewrite Hshape. simpl.
    rewrite (delete_id _ _ Hnone). repeat split.
Qed.

(** A form with a name and a user and no price, sent to a store that
    holds one pack: the answer is 400 and the store is as before. *)
Lemma X26_refused_requests_change_nothing_witness :
  let s := snd (Storage.createSoundPack Scenario.grand 10 Storage.empty_store) in
  let form := Storage.mkSoundPackForm (Storage.Given "Upright"%string)
                Storage.Absent (Some 1) None true None in
  Storage.receive (fun _ => true) (fun _ => true)
    (Storage.InPostSoundPack form) 20 s = (400, s).
Proof.
  intros s form.
  refine (proj1 (proj2 (X26_refused_requests_change_nothing
                          (fun _ => true) (fun _ => true)
                          (Storage.InPostSoundPack form) 20 s))
            form eq_refl _).
  right. right. reflexivity.
Defined.

(** X27.  [getAllSoundPacks] returns exactly the stored packs that pass
    the filters given: the owner when [userId] is given and the public
    flag when [isPublic] is given. *)
Theorem X27_pack_listing_filters
    (userId : option Z) (isPublic : option bool) (s : Storage.Store)
    (x : Storage.SoundPack) :
  In x (StorageFacts.getAllSoundPacks userId isPublic s) <->
  (exists k, Storage.soundPacks s !! k = Some x) /\
  (forall u, userId = Some u -> Storage.sp_userId x = u) /\
  (forall b, isPublic = Some b -> Storage.sp_isPublic x = b).
Proof.
  unfold StorageFacts.getAllSoundPacks.
  destruct userId as [u|], isPublic as [b|];
    rewrite ?filter_In, StorageFacts.elem_of_values, ?Z.eqb_eq, ?Bool.eqb_true_iff;
    split.
  - intros [[Hk Hu] Hb].
    split; [exact Hk|split]; intros ? [= <-]; assumption.
  - intros (Hk & Hu & Hb). split; [split; [exact Hk|now apply Hu]|now apply Hb].
  - intros [Hk Hu]. split; [exact Hk|split];
      first [intros ? [= <-]; assumption | intros ? [=]].
  - intros (Hk & Hu & _). split; [exact Hk|now apply Hu].
  - intros [Hk Hb]. split; [exact Hk|split];
      first [intros ? [= <-]; assumption | intros ? [=]].
  - intros (Hk & _ & Hb). split; [exact Hk|now apply Hb].
  - intros Hk. split; [exact Hk|split]; intros ? [=].
  - now intros (Hk & _).
Qed.

(** X28.  As long as no pack is deleted, purchases keep referring to
    stored packs: after any run of requests (creating and patching
    packs and sounds, deleting sounds, reviewing, purchasing) on a fresh
    store that contains no [DELETE /soundpacks/:id], every stored
    purchase references a pack that is stored. *)
Theorem X28_references_kept_without_pack_deletion
    (rs : list (Storage.Request * Z))
    (H : forallb (fun r => match fst r with
                           | Storage.DeleteSoundPack _ => false
                           | _ => true
                           end) rs = true) :
  Storage.purchases_reference_packs (Storage.serve rs Storage.empty_store).
Proof.
  assert (Hgen : forall rs s,
             forallb (fun r => match fst r with
                               | Storage.DeleteSoundPack _ => false
                               | _ => true
                               end) rs = true ->
             Storage.purchases_reference_packs s ->
             Storage.purchases_reference_packs (Storage.serve rs s)).
  { clear. intros rs. induction rs as [|[r now] rs IH]; intros s H Hs; [exact Hs|].
    simpl in H. apply andb_true_iff in H. destruct H as [Hr Hrs].
    change (Storage.serve ((r, now) :: rs) s)
      with (Storage.serve rs (snd (Storage.handle r now s))).
    apply IH; [exact Hrs|].
    apply Storage.handle_keeps_references; [|exact Hs].
    intros id ->. discriminate Hr. }
  apply Hgen; [exact H|].
  intros k p Hk. simpl in Hk. rewrite lookup_empty in Hk. discriminate Hk.
Qed.

Lemma X28_references_kept_without_pack_deletion_witness :
  Storage.purchases_reference_packs
    (Storage.serve [ (Storage.PostSoundPack Scenario.grand, 10);
                     (Storage.PostPurchase (Some 7) (Some 1), 20) ]
       Storage.empty_store).
Proof.
  exact (X28_references_kept_without_pack_deletion
           [ (Storage.PostSoundPack Scenario.grand, 10);
             (Storage.PostPurchase (Some 7) (Some 1), 20) ] eq_refl).
Defined.



(** X30.  The elapsed-time display.  For a recording shorter than 100
    minutes [formatTime] prints exactly five characters: the minutes as
    two digits, a colon, and the seconds (0 to 59) as two digits; the
    milliseconds within the second do not matter.  At 100 minutes the
    text grows to six characters. *)
Theorem X30_elapsed_time_display (ms : Z) (H : 0 <= ms < 6000000) :
  RecorderFacts.formatTime ms =
    RecorderFacts.mm_ss (ms / 60000) ((ms / 1000) mod 60) /\
  String.length (RecorderFacts.formatTime ms) = 5%nat /\
  0 <= (ms / 1000) mod 60 < 60 /\ 0 <= ms / 60000 < 100 /\
  RecorderFacts.formatTime 6000000 = "100:00"%string.
Proof.
  assert (Ht : 0 <= ms / 1000 < 6000).
  { split; [apply Z.div_pos; lia|apply Z.div_lt_upper_bound; lia]. }
  assert (E : RecorderFacts.formatTime ms =
              RecorderFacts.mm_ss (ms / 60000) ((ms / 1000) mod 60)).
  { rewrite RecorderFacts.formatTime_seconds.
    pose proof RecorderFacts.formatTime_table as Htab.
    rewrite forallb_forall in Htab.
    specialize (Htab (Z.to_nat (ms / 1000))).
    rewrite Z2Nat.id in Htab by lia.
    replace (ms / 60000) with (ms / 1000 / 60)
      by (rewrite Z.div_div by lia; reflexivity).
    apply String.eqb_eq, Htab. apply in_seq. lia. }
  split; [exact E|]. split; [rewrite E; reflexivity|].
  split; [apply Z.mod_pos_bound; lia|].
  split; [|reflexivity].
  split; [apply Z.div_pos; lia|apply Z.div_lt_upper_bound; lia].
Qed.

Lemma X30_elapsed_time_display_witness :
  RecorderFacts.formatTime 754321 = "12:34"%string.
Proof.
  refine (eq_trans (proj1 (X30_elapsed_time_display 754321 _)) _);
    [lia|reflexivity].
Defined.
